(** * memoize3: a shallow embedding of [memoize3.py] and its properties

    The development follows the layout of the script: Python's string,
    [posixpath], [re] and [int] helpers that the script calls, then the
    data model (file records and the dependency store), the operating
    system as the script observes it, and the script's own functions in
    source order: [hash_file], [modtime], [files_up_to_date],
    [is_relevant], [generate_deps], [read_deps], [write_deps],
    [memoize_with_deps] and the option parser of the [__main__] block.

    Python [str] and [bytes] values are Rocq strings: sequences of
    characters with code points below 256.  The diagnostic prints
    guarded by [args.verbose] only write to standard output and are left
    out; the one unconditional print, the "up to date" report, is kept. *)

From Stdlib Require Import ZArith String Ascii List Bool Lia.
From stdpp Require Import base option list gmap strings countable.

Open Scope string_scope.

(** ** Python [str] methods used by the script and by [posixpath] *)

(** [s.startswith(pre)] *)
Fixpoint startswith (pre s : string) : bool :=
  match pre, s with
  | EmptyString, _ => true
  | String a pre', String b s' => if Ascii.eqb a b then startswith pre' s' else false
  | String _ _, EmptyString => false
  end.

(** [s.endswith("/")] *)
Fixpoint endswith_sep (s : string) : bool :=
  match s with
  | EmptyString => false
  | String c EmptyString => Ascii.eqb c "/"
  | String _ s' => endswith_sep s'
  end.

(** [s.split("/")]: never the empty list; the empty string splits to [[""]]. *)
Fixpoint split_sep (s : string) : list string :=
  match s with
  | EmptyString => [EmptyString]
  | String c s' =>
      if Ascii.eqb c "/" then EmptyString :: split_sep s'
      else match split_sep s' with
           | h :: t => String c h :: t
           | [] => [String c EmptyString]
           end
  end.

(** ["/".join(comps)] *)
Fixpoint join_sep (comps : list string) : string :=
  match comps with
  | [] => EmptyString
  | [c] => c
  | c :: rest => c +:+ String "/" (join_sep rest)
  end.

(** [sep * n] *)
Fixpoint seps (n : nat) : string :=
  match n with
  | O => EmptyString
  | S n' => String "/" (seps n')
  end.

(** ** [posixpath]: [isabs], [join], [normpath], [abspath]

    The script calls [os.path.normpath] and [os.path.abspath]; these are
    the POSIX versions of the standard library, written out as they are
    there. *)

Definition isabs (path : string) : bool := startswith "/" path.

(** [posixpath.join(a, b)] for two arguments. *)
Definition path_join (a b : string) : string :=
  if startswith "/" b then b
  else if String.eqb a "" || endswith_sep a then a +:+ b
  else a +:+ String "/" b.

(** The number of leading slashes [normpath] keeps: POSIX allows one or
    two, and treats three or more as one. *)
Definition initial_slashes (path : string) : nat :=
  if startswith "/" path then
    if startswith "//" path && negb (startswith "///" path) then 2 else 1
  else 0.

(** One turn of the loop over [comps]; [new_comps] is kept with its last
    element first, so [append] is a cons and [pop] a tail. *)
Definition norm_step (slashes : nat) (new_comps : list string) (comp : string)
  : list string :=
  if String.eqb comp "" || String.eqb comp "." then new_comps
  else if negb (String.eqb comp "..")
          || (Nat.eqb slashes 0 && match new_comps with [] => true | _ => false end)
          || match new_comps with top :: _ => String.eqb top ".." | [] => false end
       then comp :: new_comps
       else match new_comps with
            | _ :: below => below
            | [] => []
            end.

Definition norm_comps (slashes : nat) (comps : list string) : list string :=
  rev (fold_left (norm_step slashes) comps []).

Definition normpath (path : string) : string :=
  if String.eqb path "" then "."
  else
    let slashes := initial_slashes path in
    let comps := norm_comps slashes (split_sep path) in
    let path' := seps slashes +:+ join_sep comps in
    if String.eqb path' "" then "." else path'.

(** [abspath] joins a relative path to the working directory [cwd]
    ([os.getcwd()]) and normalizes. *)
Definition abspath (cwd path : string) : string :=
  normpath (if isabs path then path else path_join cwd path).

(** ** [re.match] for the patterns of the script

    Every pattern of the script is a sequence of literal text, dot-star,
    and one capturing dot-star group (written <G> below).  [re.match]
    anchors at the start of the line only; the dot matches every
    character but the newline; the star is greedy, and the backtracking
    matcher returns the first match in that order: each star first tries
    to take one more character and gives it back only when the rest of
    the pattern fails. *)

Inductive re_item : Type :=
  | Lit (text : string)
  | DotStar
  | GroupDotStar.

Definition regex : Type := list re_item.

Definition is_newline (c : ascii) : bool := Ascii.eqb c "010".

(** [strip_prefix pre s] is the rest of [s] after the literal [pre]. *)
Fixpoint strip_prefix (pre s : string) : option string :=
  match pre, s with
  | EmptyString, _ => Some s
  | String a pre', String b s' => if Ascii.eqb a b then strip_prefix pre' s' else None
  | String _ _, EmptyString => None
  end.

(** [re_match r line] is [match.group(1)] when [re.match(r, line)]
    succeeds and [None] when it does not. *)
Fixpoint re_match (r : regex) (s : string) : option string :=
  match r with
  | [] => Some ""
  | Lit text :: r' =>
      match strip_prefix text s with
      | Some s' => re_match r' s'
      | None => None
      end
  | DotStar :: r' =>
      (fix star (s : string) : option string :=
         match s with
         | String c s' =>
             if is_newline c then re_match r' s
             else match star s' with
                  | Some g => Some g
                  | None => re_match r' s
                  end
         | EmptyString => re_match r' s
         end) s
  | GroupDotStar :: r' =>
      (fix group (s : string) : option string :=
         match s with
         | String c s' =>
             if is_newline c then
               match re_match r' s with Some _ => Some "" | None => None end
             else match group s' with
                  | Some g => Some (String c g)
                  | None => match re_match r' s with Some _ => Some "" | None => None end
                  end
         | EmptyString =>
             match re_match r' s with Some _ => Some "" | None => None end
         end) s
  end.

(** The double quote character, as a one-character string. *)
Definition dquote : string := String "034" "".

(** Pattern 1: .*open\("<G>", .* *)
Definition re_open : regex :=
  [DotStar; Lit ("open(" +:+ dquote); GroupDotStar; Lit (dquote +:+ ", "); DotStar].
(** Pattern 2: .*stat64\("<G>", .* *)
Definition re_stat64 : regex :=
  [DotStar; Lit ("stat64(" +:+ dquote); GroupDotStar; Lit (dquote +:+ ", "); DotStar].
(** Pattern 3: .*rename\(".*", "<G>" *)
Definition re_rename : regex :=
  [DotStar; Lit ("rename(" +:+ dquote); DotStar; Lit (dquote +:+ ", " +:+ dquote);
   GroupDotStar; Lit dquote].
(** Pattern 4: .*stat\("<G>", .* *)
Definition re_stat : regex :=
  [DotStar; Lit ("stat(" +:+ dquote); GroupDotStar; Lit (dquote +:+ ", "); DotStar].
(** Pattern 5: .*openat\(AT_FDCWD, "<G>", .* *)
Definition re_openat : regex :=
  [DotStar; Lit ("openat(AT_FDCWD, " +:+ dquote); GroupDotStar; Lit (dquote +:+ ", "); DotStar].
(** The exit pattern: .*exit_group\(<G>\).* *)
Definition re_exit_group : regex :=
  [DotStar; Lit "exit_group("; GroupDotStar; Lit ")"; DotStar].

(** The list [regexes] of [generate_deps], in its order. *)
Definition regexes : list regex :=
  [re_open; re_stat64; re_rename; re_stat; re_openat].

(** Appends the newline that [readlines] leaves at the end of a line. *)
Definition nl (s : string) : string := s +:+ String "010" "".

(** ** [int(text)] on a string

    [int] on a [str] drops surrounding white space, allows one sign, and
    reads one or more decimal digits, where single underscores may
    separate digits; a text with more than [sys.get_int_max_str_digits()]
    digits (4300 unless the interpreter is told otherwise) is refused.
    Anything else is a [ValueError], here [None].

    White space is what the C function [PyLong_FromString] skips, the
    characters 9 to 13 and 32, together with the white space characters
    above 127, which [int] turns into spaces beforehand: among the
    characters below 256 these are NEL (133) and the no-break space
    (160).  The separators 28 to 31 are white space for [str.isspace]
    but not for [int].  No character from 128 to 255 is a decimal
    digit. *)

Definition is_space (c : ascii) : bool :=
  let n := nat_of_ascii c in
  ((9 <=? n) && (n <=? 13) || (n =? 32) || (n =? 133) || (n =? 160))%nat.

Definition is_digit (c : ascii) : bool :=
  let n := nat_of_ascii c in ((48 <=? n) && (n <=? 57))%nat.

Definition digit_val (c : ascii) : Z := Z.of_nat (nat_of_ascii c) - 48.

Fixpoint lstrip (s : string) : string :=
  match s with
  | String c s' => if is_space c then lstrip s' else s
  | EmptyString => EmptyString
  end.

Fixpoint rstrip (s : string) : string :=
  match s with
  | String c s' =>
      match rstrip s' with
      | EmptyString => if is_space c then EmptyString else String c EmptyString
      | r => String c r
      end
  | EmptyString => EmptyString
  end.

Fixpoint parse_digits (acc : Z) (after_digit : bool) (s : string) : option Z :=
  match s with
  | EmptyString => if after_digit then Some acc else None
  | String c s' =>
      if is_digit c then parse_digits (10 * acc + digit_val c) true s'
      else if Ascii.eqb c "_" && after_digit then parse_digits acc false s'
      else None
  end.

(** The default of [sys.get_int_max_str_digits()]. *)
Definition int_max_str_digits : N := 4300.

(** The number of digits of a text, underscores not counted. *)
Fixpoint count_digits (s : string) : N :=
  match s with
  | EmptyString => 0
  | String c s' => if is_digit c then N.succ (count_digits s') else count_digits s'
  end.

Definition parse_decimal (ds : string) : option Z :=
  if (count_digits ds <=? int_max_str_digits)%N then parse_digits 0 false ds else None.

Definition py_int (text : string) : option Z :=
  match rstrip (lstrip text) with
  | String "-" ds => Z.opp <$> parse_decimal ds
  | String "+" ds => parse_decimal ds
  | ds => parse_decimal ds
  end.

(** ** Data model *)

(** What [modtime] returns and a record stores: the modification time of
    [os.path.getmtime], which the script only ever compares for equality
    (read here as a whole number of clock ticks), or the string
    ['bad_modtime']. *)
Inductive mtime_val : Type :=
  | MTime (t : Z)
  | BadModtime.

#[export] Instance mtime_val_eq_dec : EqDecision mtime_val.
Proof. solve_decision. Defined.

#[export] Instance mtime_val_countable : Countable mtime_val.
Proof.
  refine (inj_countable'
            (fun m => match m with MTime t => Some t | BadModtime => None end)
            (fun o => match o with Some t => MTime t | None => BadModtime end) _).
  intros []; reflexivity.
Defined.

(** The tuple [(fname, hash_digest, mtime)] that [generate_deps] appends:
    [hash_digest] is a hex digest or Python's [None]. *)
Definition file_record : Type := string * option string * mtime_val.

Definition fr_path (r : file_record) : string := r.1.1.
Definition fr_hash (r : file_record) : option string := r.1.2.
Definition fr_mtime (r : file_record) : mtime_val := r.2.

(** The dictionary [deps]: command string to list of records. *)
Abbreviation deps_map := (gmap string (list file_record)).

(** The globals the [__main__] block sets before any function runs. *)
Record config : Type := Config {
  opt_use_modtime : bool;
  opt_dirs : list string;
  ignore_dirs : option (list string)   (* [args.ignore] is [None] when no -i is given *)
}.

(** ** The operating system, as the script observes it

    A file system is a finite map from absolute normalized paths to
    nodes.  Every system call resolves its path argument against the
    working directory. *)

Inductive node : Type :=
  | File (readable writable : bool) (data : string) (mtime : Z)
  | Dir (writable : bool) (mtime : Z).

Record os_state : Type := OsState {
  cwd : string;
  nodes : gmap string node;
  clock : Z
}.

Definition os_lookup (st : os_state) (path : string) : option node :=
  nodes st !! abspath (cwd st) path.

(** [open(path, 'rb')] followed by reading to the end; [None] when the
    open or the read raises. *)
Definition os_read (st : os_state) (path : string) : option string :=
  match os_lookup st path with
  | Some (File true _ data _) => Some data
  | _ => None
  end.

(** [os.path.getmtime(path)]; [None] when it raises. *)
Definition os_getmtime (st : os_state) (path : string) : option Z :=
  match os_lookup st path with
  | Some (File _ _ _ t) => Some t
  | Some (Dir _ t) => Some t
  | None => None
  end.

(** [os.path.isfile(path)] *)
Definition os_isfile (st : os_state) (path : string) : bool :=
  match os_lookup st path with
  | Some (File _ _ _ _) => true
  | _ => false
  end.

(** [open(path, 'wb')], writing [data] and closing: an existing writable
    file is truncated and rewritten; a missing one is created when its
    directory exists and is writable, and the new entry changes the
    modification time of that directory; [None] when the open raises. *)
Definition os_write (st : os_state) (path data : string) : option os_state :=
  let key := abspath (cwd st) path in
  match nodes st !! key with
  | Some (File r true _ _) =>
      Some (OsState (cwd st) (<[key := File r true data (clock st)]> (nodes st)) (clock st))
  | Some _ => None
  | None =>
      let parent := normpath (path_join key "..") in
      match nodes st !! parent with
      | Some (Dir true _) =>
          Some (OsState (cwd st)
                        (<[key := File true true data (clock st)]>
                           (<[parent := Dir true (clock st)]> (nodes st)))
                        (clock st))
      | _ => None
      end
  end.

(** The running process: the operating system, what was printed, and the
    commands that were run under the tracer. *)
Record proc : Type := Proc {
  os : os_state;
  stdout : list string;
  spawned : list string
}.

Definition print (msg : string) (p : proc) : proc :=
  Proc (os p) (stdout p ++ [msg]) (spawned p).

(** ** What the script imports and does not define

    [hashlib]'s streaming SHA-256 object, [pickle]'s [dump] and [load] on
    the store's dictionary, and the traced run: the shell command
    [strace -f -o TMP -e trace=file,exit_group CMD], followed by reading
    TMP back with [readlines] and removing it.  [strace st cmd] is the
    state the run leaves and the lines read back, [None] when the capture
    file cannot be opened.  [pickle_loads] is [None] when [pickle.load]
    raises. *)
Class Externals : Type := {
  hasher : Type;
  sha256 : hasher;
  update : hasher -> string -> hasher;
  hexdigest : hasher -> string;
  pickle_dumps : deps_map -> string;
  pickle_loads : string -> option deps_map;
  strace : os_state -> string -> os_state * option (list string)
}.

(** What the library promises of [pickle]: a dump loads back to an equal
    object, and an empty file is not a pickle ([EOFError]). *)
Definition pickle_roundtrip `{Externals} : Prop :=
  forall d : deps_map, pickle_loads (pickle_dumps d) = Some d.
Definition pickle_rejects_empty `{Externals} : Prop :=
  pickle_loads "" = None.

(** ** Exceptions *)

Inductive exn : Type :=
  | ValueError        (* [int] on text that is no integer *)
  | OSError           (* [open] failed *)
  | UnpicklingError.  (* [pickle.load] failed *)

Inductive result (A : Type) : Type :=
  | Ok (a : A)
  | Raise (e : exn).
Arguments Ok {A} a.
Arguments Raise {A} e.

#[export] Instance result_ret : MRet result := fun A a => Ok a.
#[export] Instance result_bind : MBind result :=
  fun A B f m => match m with Ok a => f a | Raise e => Raise e end.

(** A [for] loop whose body may raise. *)
Fixpoint for_each {A S : Type} (body : S -> A -> result S) (items : list A) (s : S)
  : result S :=
  match items with
  | [] => Ok s
  | x :: rest => s' ← body s x; for_each body rest s'
  end.

(** ** The script *)

Section Script.
Context `{Ext : Externals}.

(** *** [hash_file] *)

Definition blocksize : nat := N.to_nat 65536.

(** [file.read(n)]: up to [n] characters and the rest of the stream. *)
Fixpoint read_block (n : nat) (stream : string) : string * string :=
  match n, stream with
  | S n', String c rest =>
      let '(buf, rest') := read_block n' rest in (String c buf, rest')
  | _, _ => (EmptyString, stream)
  end.

(** The [while len(buf) > 0] loop; [fuel] bounds the number of turns. *)
Fixpoint hash_loop (fuel : nat) (h : hasher) (buf stream : string) : hasher :=
  match fuel with
  | O => h
  | S fuel' =>
      if (0 <? String.length buf)%nat then
        let h' := update h buf in
        let '(buf', stream') := read_block blocksize stream in
        hash_loop fuel' h' buf' stream'
      else h
  end.

Definition hash_file (st : os_state) (fname : string) : option string :=
  match os_read st fname with
  | Some data =>
      let '(buf, stream) := read_block blocksize data in
      Some (hexdigest (hash_loop (S (String.length data)) sha256 buf stream))
  | None => None
  end.

(** *** [modtime] *)

Definition modtime (st : os_state) (fname : string) : mtime_val :=
  match os_getmtime st fname with
  | Some t => MTime t
  | None => BadModtime
  end.

(** *** [files_up_to_date] *)

Fixpoint files_loop (cfg : config) (st : os_state) (files : list file_record) : bool :=
  match files with
  | [] => true
  | (fname, hash_digest, mtime) :: rest =>
      if opt_use_modtime cfg then
        if bool_decide (modtime st fname <> mtime) then false
        else files_loop cfg st rest
      else
        if bool_decide (hash_file st fname <> hash_digest) then false
        else files_loop cfg st rest
  end.

(** [files] is what [deps.get(cmd)] returned. *)
Definition files_up_to_date (cfg : config) (st : os_state)
    (files : option (list file_record)) : bool :=
  match files with
  | None => false
  | Some l => files_loop cfg st l
  end.

(** *** [is_relevant] *)

(** The loop [for d in dirs: if path1.startswith(abspath(d)): return ...]:
    does some directory of [dirs] make the test succeed? *)
Fixpoint any_prefix (st : os_state) (path1 : string) (dirs : list string) : bool :=
  match dirs with
  | [] => false
  | d :: rest =>
      if startswith (abspath (cwd st) d) path1 then true
      else any_prefix st path1 rest
  end.

Definition is_relevant (cfg : config) (st : os_state) (fname : string) : bool :=
  let path1 := abspath (cwd st) fname in
  if match ignore_dirs cfg with
     | Some (d :: ds) => any_prefix st path1 (d :: ds)
     | _ => false
     end
  then false
  else if any_prefix st path1 (opt_dirs cfg) then true
  else false.

(** *** [generate_deps] *)

(** The locals [status], [files] and [files_dict]. *)
Record parse_state : Type := ParseState {
  status : Z;
  files : list file_record;
  files_dict : gset string
}.

(** The body of [for regex in regexes]: the path match, then the exit
    code match, which the source places inside the same loop. *)
Definition regex_step (cfg : config) (st : os_state) (line : string)
    (s : parse_state) (r : regex) : result parse_state :=
  let s1 :=
    match re_match r line with
    | Some g =>
        let fname := normpath g in
        if bool_decide (fname ∉ files_dict s) && is_relevant cfg st fname && os_isfile st fname
        then ParseState (status s)
                        (files s ++ [(fname, hash_file st fname, modtime st fname)])
                        ({[fname]} ∪ files_dict s)
        else s
    | None => s
    end in
  match re_match re_exit_group line with
  | Some g =>
      match py_int g with
      | Some n => Ok (ParseState n (files s1) (files_dict s1))
      | None => Raise ValueError
      end
  | None => Ok s1
  end.

(** The body of [for line in output]. *)
Definition line_step (cfg : config) (st : os_state) (s : parse_state) (line : string)
  : result parse_state :=
  for_each (regex_step cfg st line) regexes s.

(** The part of [generate_deps] after the trace was read back: both loops
    and the [return status, files]. *)
Definition parse_trace (cfg : config) (st : os_state) (output : list string)
  : result (Z * list file_record) :=
  s ← for_each (line_step cfg st) output (ParseState 0 [] ∅);
  Ok (status s, files s).

Definition generate_deps (cfg : config) (cmd : string) (p : proc)
  : result (Z * list file_record * proc) :=
  let '(st1, output) := strace (os p) cmd in
  let p1 := Proc st1 (stdout p) (spawned p ++ [cmd]) in
  match output with
  | None => Raise OSError
  | Some lines =>
      '(status, files) ← parse_trace cfg st1 lines;
      Ok (status, files, p1)
  end.

(** *** [read_deps] and [write_deps] *)

Definition read_deps (depsname : string) (p : proc) : result deps_map :=
  match os_read (os p) depsname with
  | None => Ok ∅
  | Some bytes =>
      match pickle_loads bytes with
      | Some deps => Ok deps
      | None => Raise UnpicklingError
      end
  end.

Definition write_deps (depsname : string) (deps : deps_map) (p : proc) : result proc :=
  match os_write (os p) depsname (pickle_dumps deps) with
  | Some st' => Ok (Proc st' (stdout p) (spawned p))
  | None => Raise OSError
  end.

(** *** [memoize_with_deps] *)

(** Python's truth value of [files]: [None] and the empty list are false. *)
Definition truthy (files : option (list file_record)) : bool :=
  match files with
  | Some (_ :: _) => true
  | _ => false
  end.

(** The [else] branch: run, record or discard, write the store. *)
Definition run_and_record (cfg : config) (depsname : string) (deps : deps_map)
    (cmd : string) (p : proc) : result (Z * deps_map * proc) :=
  '(status, files, p1) ← generate_deps cfg cmd p;
  let deps1 :=
    if (status =? 0)%Z then <[cmd := files]> deps
    else if bool_decide (is_Some (deps !! cmd)) then delete cmd deps
    else deps in
  p2 ← write_deps depsname deps1 p1;
  Ok (status, deps1, p2).

(** The condition of the [if]: [files and files_up_to_date(files)]. *)
Definition cache_hit (cfg : config) (deps : deps_map) (cmd : string) (p : proc) : bool :=
  let files := deps !! cmd in
  truthy files && files_up_to_date cfg (os p) files.

(** The result is the exit status, the dictionary [deps] as the call
    leaves it (the source updates it in place), and the process. *)
Definition memoize_with_deps (cfg : config) (depsname : string) (deps : deps_map)
    (cmd : string) (p : proc) : result (Z * deps_map * proc) :=
  if cache_hit cfg deps cmd p then
    Ok (0%Z, deps, print ("MEMOIZE: Up to date: " +:+ cmd) p)
  else run_and_record cfg depsname deps cmd p.

End Script.

(** ** The [__main__] block *)

(** *** The option parser

    [parser.parse_args()] is [argparse] at work on [sys.argv[1:]], with
    the options the six [add_argument] calls declare and the [-h] /
    [--help] option every parser has.  What follows is the algorithm of
    [ArgumentParser._parse_known_args] (Python 3.11) for this parser.
    The texts [argparse] prints before it exits are left out. *)

(** The actions of the parser, but for the positional [command]. *)
Inductive action : Type :=
  | ActHelp
  | ActTimestamps
  | ActDirectory
  | ActIgnore
  | ActVerbose
  | ActFilename.

(** [parser._option_string_actions], in the order of insertion. *)
Definition option_string_actions : list (string * action) :=
  [("-h", ActHelp); ("--help", ActHelp);
   ("-t", ActTimestamps); ("--timestamps", ActTimestamps);
   ("-d", ActDirectory); ("--directory", ActDirectory);
   ("-i", ActIgnore); ("--ignore", ActIgnore);
   ("-v", ActVerbose); ("--verbose", ActVerbose);
   ("-f", ActFilename); ("--filename", ActFilename)].

(** [option_string in self._option_string_actions], with the action. *)
Definition find_option (option_string : string) : option action :=
  snd <$> List.find (fun entry => String.eqb (fst entry) option_string) option_string_actions.

(** The number of arguments of an action: [nargs] is [None] for [append]
    and [store], which take one, and 0 for [store_true] and [help]. *)
Definition takes_value (act : action) : bool :=
  match act with
  | ActDirectory | ActIgnore | ActFilename => true
  | ActHelp | ActTimestamps | ActVerbose => false
  end.

(** [arg_string.split('=', 1)] when ['=' in arg_string]. *)
Fixpoint split_eq (s : string) : option (string * string) :=
  match s with
  | EmptyString => None
  | String c s' =>
      if Ascii.eqb c "=" then Some (EmptyString, s')
      else match split_eq s' with
           | Some (before, after) => Some (String c before, after)
           | None => None
           end
  end.

Fixpoint all_digits (s : string) : bool :=
  match s with
  | EmptyString => true
  | String c s' => is_digit c && all_digits s'
  end.

(** [s] is [digits* . digits+]. *)
Fixpoint is_fraction (s : string) : bool :=
  match s with
  | EmptyString => false
  | String c s' =>
      if Ascii.eqb c "." then negb (String.eqb s' "") && all_digits s'
      else is_digit c && is_fraction s'
  end.

(** [s] without one newline at its end, which the dollar sign of a
    pattern lets pass. *)
Fixpoint chomp (s : string) : string :=
  match s with
  | EmptyString => EmptyString
  | String c EmptyString => if Ascii.eqb c "010" then EmptyString else s
  | String c s' => String c (chomp s')
  end.

(** [parser._negative_number_matcher.match(arg_string)], the pattern
    being [^-\d+$|^-\d*\.\d+$]. *)
Definition negative_number (arg_string : string) : bool :=
  match arg_string with
  | String "-" rest =>
      let body := chomp rest in
      (negb (String.eqb body "") && all_digits body) || is_fraction body
  | _ => false
  end.

Fixpoint contains_space (s : string) : bool :=
  match s with
  | EmptyString => false
  | String c s' => Ascii.eqb c " " || contains_space s'
  end.

(** [parser._get_option_tuples(option_string)], called on a text of two
    characters or more that starts with a dash: every way to read the
    text as an option.  A text with two dashes is split at the equals
    sign, and what is before it may be the beginning of an option (an
    abbreviation); a text with one dash is a short option and what is
    written after it. *)
Definition get_option_tuples (option_string : string)
  : list (action * string * option string) :=
  if startswith "--" option_string then
    let '(option_prefix, explicit_arg) :=
      match split_eq option_string with
      | Some (before, after) => (before, Some after)
      | None => (option_string, None)
      end in
    omap (fun entry : string * action =>
            if startswith option_prefix (fst entry)
            then Some (snd entry, fst entry, explicit_arg) else None)
         option_string_actions
  else
    let '(short_option_prefix, short_explicit_arg) :=
      match option_string with
      | String c0 (String c1 rest) => (String c0 (String c1 EmptyString), rest)
      | _ => (option_string, EmptyString)
      end in
    omap (fun entry : string * action =>
            if String.eqb (fst entry) short_option_prefix
            then Some (snd entry, fst entry, Some short_explicit_arg)
            else if startswith option_string (fst entry)
                 then Some (snd entry, fst entry, None) else None)
         option_string_actions.

(** What [parser._parse_optional(arg_string)] does: it returns [None]
    for a positional argument, returns a tuple of action (or [None] for
    an option the parser does not have), option string and explicit
    argument, or ends the program for an ambiguous abbreviation. *)
Inductive parsed_optional : Type :=
  | Positional
  | OptionTuple (act : option action) (option_string : string) (explicit_arg : option string)
  | Ambiguous.

Definition parse_optional (arg_string : string) : parsed_optional :=
  if String.eqb arg_string "" then Positional
  else if negb (startswith "-" arg_string) then Positional
  else
    match find_option arg_string with
    | Some act => OptionTuple (Some act) arg_string None
    | None =>
        if (String.length arg_string =? 1)%nat then Positional
        else
          match (split_eq arg_string ≫= fun '(option_string, explicit_arg) =>
                 find_option option_string ≫= fun act =>
                 Some (act, option_string, explicit_arg)) with
          | Some (act, option_string, explicit_arg) =>
              OptionTuple (Some act) option_string (Some explicit_arg)
          | None =>
              match get_option_tuples arg_string with
              | _ :: _ :: _ => Ambiguous
              | [(act, option_string, explicit_arg)] =>
                  OptionTuple (Some act) option_string explicit_arg
              | [] =>
                  if negative_number arg_string then Positional
                  else if contains_space arg_string then Positional
                  else OptionTuple None arg_string None
              end
          end
    end.

(** One character of [arg_strings_pattern], with the tuple that
    [option_string_indices] holds for an ['O']. *)
Inductive arg_class : Type :=
  | ClassA
  | ClassO (act : option action) (option_string : string) (explicit_arg : option string)
  | ClassDash.

(** The first loop of [_parse_known_args]: every argument is classified
    before any is used, and all that follows the first [--] is an
    argument.  [None] when the parser ends the program. *)
Fixpoint classify (arg_strings : list string) : option (list arg_class) :=
  match arg_strings with
  | [] => Some []
  | arg_string :: rest =>
      if String.eqb arg_string "--" then Some (ClassDash :: ((fun _ => ClassA) <$> rest))
      else
        match parse_optional arg_string with
        | Ambiguous => None
        | Positional => cons ClassA <$> classify rest
        | OptionTuple act option_string explicit_arg =>
            cons (ClassO act option_string explicit_arg) <$> classify rest
        end
  end.

(** A value [argparse] stores for an option that takes one: the text
    given, or the empty list.  [_get_values] removes a [--] from the
    texts of an option, and with none left it returns the list of no
    values; this is what the spellings [-d=--] and [-d--] lead to. *)
Inductive argval : Type :=
  | Str (s : string)
  | EmptyList.

(** The namespace [parse_args] returns. *)
Record Arguments : Type := MkArguments {
  arg_timestamps : bool;
  arg_directory : list argval;
  arg_ignore : option (list argval);
  arg_verbose : bool;
  arg_filename : argval;
  arg_command : list string
}.

(** The defaults: [store_true] options start at [False], [--directory]
    at the list ['.'], [--ignore] at [None] (an [append] action without
    a default), [--filename] at ['.deps3']. *)
Definition default_arguments : Arguments :=
  MkArguments false [Str "."] None false (Str ".deps3") [].

(** [_get_values] for an option with one text. *)
Definition get_values (arg_string : string) : argval :=
  if String.eqb arg_string "--" then EmptyList else Str arg_string.

(** [take_action]: [store_true] stores [True]; [append] appends to a
    copy of what the destination holds, be it the default or earlier
    values, where [None] counts as the empty list; [store] replaces the
    value.  The help action prints the help and ends the program with
    status 0, here [None]. *)
Definition take_action (act : action) (argument_strings : list string) (ns : Arguments)
  : option Arguments :=
  let value := match argument_strings with
               | [arg_string] => get_values arg_string
               | _ => EmptyList
               end in
  match act with
  | ActHelp => None
  | ActTimestamps =>
      Some (MkArguments true (arg_directory ns) (arg_ignore ns) (arg_verbose ns)
                        (arg_filename ns) (arg_command ns))
  | ActVerbose =>
      Some (MkArguments (arg_timestamps ns) (arg_directory ns) (arg_ignore ns) true
                        (arg_filename ns) (arg_command ns))
  | ActDirectory =>
      Some (MkArguments (arg_timestamps ns) (arg_directory ns ++ [value])%list (arg_ignore ns)
                        (arg_verbose ns) (arg_filename ns) (arg_command ns))
  | ActIgnore =>
      Some (MkArguments (arg_timestamps ns) (arg_directory ns)
                        (Some (default [] (arg_ignore ns) ++ [value])%list)
                        (arg_verbose ns) (arg_filename ns) (arg_command ns))
  | ActFilename =>
      Some (MkArguments (arg_timestamps ns) (arg_directory ns) (arg_ignore ns)
                        (arg_verbose ns) value (arg_command ns))
  end.

Fixpoint take_actions (action_tuples : list (action * list string)) (ns : Arguments)
  : option Arguments :=
  match action_tuples with
  | [] => Some ns
  | (act, argument_strings) :: rest =>
      ns' ← take_action act argument_strings ns; take_actions rest ns'
  end.

(** The loop of [consume_optional] on an option written with an explicit
    argument.  An action that takes a value takes the explicit argument.
    An action that takes none, written with one dash, is followed by
    further short options in the same word ([-tv]): the first character
    of the explicit argument names the next option and the rest is its
    explicit argument.  The result is the list [action_tuples] and,
    where the last option of the word has no explicit argument, that
    option, which then reads what follows the word.  [None] is an
    [ArgumentError]. *)
Fixpoint consume_explicit (act : action) (option_string : string) (explicit_arg : string)
  : option (list (action * list string) * option action) :=
  if takes_value act then Some ([(act, [explicit_arg])], None)
  else if startswith "--" option_string then None
  else
    match explicit_arg with
    | EmptyString => None
    | String c new_explicit_arg =>
        match find_option (String "-" (String c EmptyString)) with
        | None => None
        | Some next =>
            match new_explicit_arg with
            | EmptyString => Some ([(act, [])], Some next)
            | _ =>
                '(action_tuples, last) ←
                  consume_explicit next (String "-" (String c EmptyString)) new_explicit_arg;
                Some ((act, []) :: action_tuples, last)
            end
        end
    end.

Definition set_command (v : list string) (ns : Arguments) : Arguments :=
  MkArguments (arg_timestamps ns) (arg_directory ns) (arg_ignore ns) (arg_verbose ns)
              (arg_filename ns) v.

(** What [parse_args] does: it returns the namespace, or ends the
    program with a status: 0 after the help, 2 after an error. *)
Inductive parse_result : Type :=
  | Parsed (args : Arguments)
  | SystemExit (code : Z).

(** The main loop of [_parse_known_args] over the arguments and their
    classes, from [start_index] on.  An option is consumed with its
    argument.  At the first argument that is no option, and at the end,
    [consume_positionals] gives the positional [command] all that is
    left: its pattern, for [nargs=REMAINDER], matches arguments, options
    and [--] alike, and [_get_values] leaves a [--] in place for it.
    Options the parser does not have are collected in [extras], and
    [parse_args] ends the program when some are left. *)
Fixpoint consume (items : list (string * arg_class)) (extras : list string) (ns : Arguments)
  : parse_result :=
  match items with
  | (arg_string, ClassO None _ _) :: rest => consume rest (extras ++ [arg_string])%list ns
  | (_, ClassO (Some act) option_string (Some explicit_arg)) :: rest =>
      match consume_explicit act option_string explicit_arg with
      | None => SystemExit 2
      | Some (action_tuples, None) =>
          match take_actions action_tuples ns with
          | None => SystemExit 0
          | Some ns' => consume rest extras ns'
          end
      | Some (action_tuples, Some last) =>
          if takes_value last then
            match rest with
            | (value, ClassA) :: rest' =>
                match take_actions (action_tuples ++ [(last, [value])])%list ns with
                | None => SystemExit 0
                | Some ns' => consume rest' extras ns'
                end
            | _ => SystemExit 2
            end
          else
            match take_actions (action_tuples ++ [(last, [])])%list ns with
            | None => SystemExit 0
            | Some ns' => consume rest extras ns'
            end
      end
  | (_, ClassO (Some act) option_string None) :: rest =>
      if takes_value act then
        match rest with
        | (value, ClassA) :: rest' =>
            match take_action act [value] ns with
            | None => SystemExit 0
            | Some ns' => consume rest' extras ns'
            end
        | _ => SystemExit 2
        end
      else
        match take_action act [] ns with
        | None => SystemExit 0
        | Some ns' => consume rest extras ns'
        end
  | _ =>
      match extras with
      | [] => Parsed (set_command (fst <$> items) ns)
      | _ => SystemExit 2
      end
  end.

Definition parse_args (argv : list string) : parse_result :=
  match classify argv with
  | None => SystemExit 2
  | Some classes => consume (zip argv classes) [] default_arguments
  end.

(** *** The namespace as the script reads it

    The block after [parse_args] and the functions it calls use
    [args.directory], [args.ignore] and [args.filename] as texts and
    lists of texts, which they are but for the empty list that [-d=--]
    and the like store; on that value [os.path.abspath] and [open] raise
    a [TypeError].  [Namespace] is the namespace with texts, and
    [namespace_of] reads it off what [parse_args] returned, [None] when
    some value is no text. *)
Record Namespace : Type := MkNamespace {
  timestamps : bool;
  directory : list string;
  ignore : option (list string);
  verbose : bool;
  filename : string;
  command : list string
}.

Definition text_of (v : argval) : option string :=
  match v with
  | Str s => Some s
  | EmptyList => None
  end.

Definition namespace_of (args : Arguments) : option Namespace :=
  dirs ← mapM text_of (arg_directory args);
  ign ← match arg_ignore args with
        | None => Some None
        | Some l => Some <$> mapM text_of l
        end;
  fname ← text_of (arg_filename args);
  Some (MkNamespace (arg_timestamps args) dirs ign (arg_verbose args) fname (arg_command args)).

(** The three assignments to the globals. *)
Definition config_of_args (args : Namespace) : config :=
  Config (timestamps args) (directory args) (ignore args).

(** *** [shlex.quote] *)

Definition is_safe_char (c : ascii) : bool :=
  let n := nat_of_ascii c in
  ((48 <=? n) && (n <=? 57) || (65 <=? n) && (n <=? 90) || (97 <=? n) && (n <=? 122))%nat
  || existsb (Ascii.eqb c) ["_"; "@"; "%"; "+"; "="; ":"; ","; "."; "/"; "-"]%char.

Fixpoint all_safe (s : string) : bool :=
  match s with
  | EmptyString => true
  | String c s' => is_safe_char c && all_safe s'
  end.

(** [s.replace("'", "'\"'\"'")] *)
Fixpoint escape_squotes (s : string) : string :=
  match s with
  | EmptyString => EmptyString
  | String c s' =>
      if Ascii.eqb c "'" then "'" +:+ dquote +:+ "'" +:+ dquote +:+ "'" +:+ escape_squotes s'
      else String c (escape_squotes s')
  end.

Definition shlex_quote (s : string) : string :=
  if String.eqb s "" then "''"
  else if all_safe s then s
  else "'" +:+ escape_squotes s +:+ "'".

(** [' '.join(items)] *)
Fixpoint join_space (items : list string) : string :=
  match items with
  | [] => EmptyString
  | [x] => x
  | x :: rest => x +:+ String " " (join_space rest)
  end.

(** The block after [parse_args]: the exit status handed to [sys.exit].
    The help text printed after the error line is left out. *)
Definition main `{Externals} (args : Namespace) (p : proc) : result (Z * proc) :=
  let command_string := join_space (shlex_quote <$> command args) in
  if String.eqb command_string "" then
    Ok (1%Z, print "Error: A command to memoize is required" p)
  else
    let cfg := config_of_args args in
    default_deps ← read_deps (filename args) p;
    '(memoize_status, _, p') ←
      memoize_with_deps cfg (filename args) default_deps command_string p;
    Ok (memoize_status, p').

(** ** A scripted platform

    An instance of [Externals] on which the script can be run inside
    Rocq: the hash object collects what it is fed and its digest is that
    text, the pickle of a dictionary is its code number written in binary
    and closed by a full stop, and the traced run is given by a script
    [run]. *)

Fixpoint pos_to_bits (n : positive) : string :=
  match n with
  | xH => "."
  | xO n' => String "0" (pos_to_bits n')
  | xI n' => String "1" (pos_to_bits n')
  end.

Fixpoint bits_to_pos (s : string) : option positive :=
  match s with
  | EmptyString => None
  | String c s' =>
      if Ascii.eqb c "." then (match s' with EmptyString => Some xH | _ => None end)
      else if Ascii.eqb c "0" then xO <$> bits_to_pos s'
      else if Ascii.eqb c "1" then xI <$> bits_to_pos s'
      else None
  end.

Definition scripted (run : os_state -> string -> os_state * option (list string))
  : Externals :=
  {| hasher := string;
     sha256 := "";
     update := String.append;
     hexdigest := fun h => h;
     pickle_dumps := fun d => pos_to_bits (encode d);
     pickle_loads := fun s => bits_to_pos s ≫= decode;
     strace := run |}.

(** A working directory [/w] holding a readable source file, a file that
    can be inspected but not read, and nothing else. *)
Definition demo_os : os_state :=
  OsState "/w"
          (list_to_map [("/", Dir true 0); ("/w", Dir true 0);
                        ("/w/out.txt", File true true "hello" 10);
                        ("/w/secret", File false false "s3" 20);
                        ("/w/a", File true true "A" 30);
                        ("/w/b", File true true "B" 40)])
          100.

Definition demo_cfg : config := Config false ["."] None.

(** A traced run that changes nothing and reports the given lines. *)
Definition replay (lines : list string) : Externals :=
  scripted (fun st _ => (st, Some lines)).

Definition demo_proc : proc := Proc demo_os [] [].

(** * Vocabulary of the statements *)

(** ** Paths *)

(** A component holds no separator. *)
Fixpoint no_sep (s : string) : bool :=
  match s with
  | EmptyString => true
  | String c s' => negb (Ascii.eqb c "/") && no_sep s'
  end.

(** A component that [normpath] keeps as it is. *)
Definition plain (c : string) : Prop :=
  c <> "" /\ c <> "." /\ c <> ".." /\ no_sep c = true.

(** The shape of [new_comps] (last element first): kept components on
    top of leading [..] components, which only a relative path has. *)
Definition stack_ok (k : nat) (acc : list string) : Prop :=
  exists m body,
    acc = (body ++ replicate m "..")%list /\ Forall plain body /\ (k <> 0%nat -> m = 0%nat).


(** [root] is a string prefix of [path]. *)
Definition is_prefix_of (root path : string) : Prop :=
  exists rest, path = root +:+ rest.

(** The exclude roots: [ignore_dirs], where [None] holds none. *)
Definition ignore_list (cfg : config) : list string :=
  match ignore_dirs cfg with
  | Some l => l
  | None => []
  end.

(** [path] lies under some root of [roots]: the absolute normalized form
    of the root is a string prefix of the absolute normalized form of the
    path. *)
Definition under_some (st : os_state) (roots : list string) (path : string) : Prop :=
  exists d, d ∈ roots /\ is_prefix_of (abspath (cwd st) d) (abspath (cwd st) path).

(** ** The store file *)

(** The store path can be opened for writing and, once written, for
    reading: it names a file that is readable and writable, or nothing
    yet in a writable directory. *)
Definition store_openable (st : os_state) (path : string) : bool :=
  match os_lookup st path with
  | Some (File true true _ _) => true
  | Some _ => false
  | None =>
      match nodes st !! normpath (path_join (abspath (cwd st) path) "..") with
      | Some (Dir true _) => true
      | _ => false
      end
  end.

(** [open(path, 'rb')] fails: nothing is there, or a directory, or a file
    without read permission. *)
Definition cannot_open (st : os_state) (path : string) : Prop :=
  match os_lookup st path with
  | Some (File true _ _ _) => False
  | _ => True
  end.

(** The demo process with a store file that exists and is empty. *)
Definition corrupt_store_proc : proc :=
  Proc (OsState "/w" (<["/w/.deps3" := File true true "" 50]> (nodes demo_os)) 100) [] [].

(** The demo process with a store file that exists and can be written
    but not read. *)
Definition write_only_store_proc : proc :=
  Proc (OsState "/w" (<["/w/.deps3" := File false true "" 50]> (nodes demo_os)) 100) [] [].

(** ** Fingerprints *)

(** The fingerprint of the active mode, computed now, equals the stored
    one. *)
Definition fingerprint_matches `{Externals} (cfg : config) (st : os_state)
    (r : file_record) : Prop :=
  if opt_use_modtime cfg then modtime st (fr_path r) = fr_mtime r
  else hash_file st (fr_path r) = fr_hash r.

(** The fingerprint of the active mode cannot be computed: the file
    cannot be read (hash mode) or inspected (timestamp mode). *)
Definition fingerprint_fails (cfg : config) (st : os_state) (r : file_record) : Prop :=
  if opt_use_modtime cfg then os_getmtime st (fr_path r) = None
  else os_read st (fr_path r) = None.

(** The stored fingerprint of the active mode is a digest or a time, not
    the value a failure leaves. *)
Definition stored_fingerprint_real (cfg : config) (r : file_record) : Prop :=
  if opt_use_modtime cfg then fr_mtime r <> BadModtime
  else fr_hash r <> None.

(** The demo directory after [secret] was deleted. *)
Definition gone_os : os_state :=
  OsState "/w" (delete "/w/secret" (nodes demo_os)) 100.

(** The record a run leaves for a file it could inspect but not read. *)
Definition secret_record : file_record := ("secret", None, MTime 20).

Definition stat_secret_line : string :=
  nl ("stat(" +:+ dquote +:+ "secret" +:+ dquote +:+ ", {st_mode=S_IFREG|0000, ...}) = 0").

(** The traced run of a command that opens nothing and exits with 0. *)
Definition exit0_line : string := nl "4242  exit_group(0)                           = ?".

(** A store that holds a command with an empty record list, as a
    successful run that touched no relevant file leaves it. *)
Definition empty_set_deps : deps_map := {[ "true" := [] ]}.

(** ** The trace parser *)

(** The paths one line yields: every pattern of [regexes] that matches
    contributes the normalized text of its group, in the order of the
    list. *)
Definition line_paths (line : string) : list string :=
  omap (fun r => normpath <$> re_match r line) regexes.

(** The paths of a whole trace, line after line. *)
Definition candidates (lines : list string) : list string :=
  lines ≫= line_paths.

(** The reading of the specification, where the first pattern that
    matches a line is the only one to contribute. *)
Definition line_paths_first_wins (line : string) : list string :=
  match line_paths line with
  | path :: _ => [path]
  | [] => []
  end.

(** The texts between the parentheses of the exit events of a trace. *)
Definition exit_texts (lines : list string) : list string :=
  omap (re_match re_exit_group) lines.

(** The last code of a list, and [d] when the list is empty. *)
Fixpoint last_code (d : Z) (codes : list Z) : Z :=
  match codes with
  | [] => d
  | c :: rest => last_code c rest
  end.

(** The two tests a path passes before it is recorded. *)
Definition accept (cfg : config) (st : os_state) (path : string) : bool :=
  is_relevant cfg st path && os_isfile st path.

(** A list without its repetitions: each element stays where it first
    occurs. *)
Fixpoint first_seen (l : list string) : list string :=
  match l with
  | [] => []
  | x :: l' => x :: filter (fun y => y <> x) (first_seen l')
  end.

(** The tuple appended for a path. *)
Definition record_of `{Externals} (st : os_state) (path : string) : file_record :=
  (path, hash_file st path, modtime st path).

(** The paths of the records of a trace. *)
Definition dependency_paths (cfg : config) (st : os_state) (lines : list string)
  : list string :=
  first_seen (filter (fun path => accept cfg st path = true) (candidates lines)).

(** The path part and the exit part of the loop body, apart. *)
Definition add_path `{Externals} (cfg : config) (st : os_state) (s : parse_state)
    (fname : string) : parse_state :=
  if bool_decide (fname ∉ files_dict s) && is_relevant cfg st fname && os_isfile st fname
  then ParseState (status s) (files s ++ [record_of st fname]) ({[fname]} ∪ files_dict s)
  else s.

Definition path_step `{Externals} (cfg : config) (st : os_state) (line : string)
    (s : parse_state) (r : regex) : parse_state :=
  match re_match r line with
  | Some g => add_path cfg st s (normpath g)
  | None => s
  end.

Definition set_status (n : Z) (s : parse_state) : parse_state :=
  ParseState n (files s) (files_dict s).

(** A line that two patterns match, with different paths. *)
Definition two_pattern_line : string :=
  nl ("rename(" +:+ dquote +:+ "open(" +:+ dquote +:+ "a" +:+ dquote +:+ ", "
      +:+ dquote +:+ "b" +:+ dquote +:+ ")").

(** The trace of a command that opens a file whose name looks like an
    exit event, and then exits with 0. *)
Definition misleading_lines : list string :=
  [nl ("open(" +:+ dquote +:+ "exit_group(1).txt" +:+ dquote +:+ ", O_RDONLY) = 3");
   exit0_line].

(** The trace of [grep 'exit_group(' f]: the line of its [execve] call,
    which the tracer reports with the other file calls, and its exit
    with 0. *)
Definition grep_lines : list string :=
  [nl ("4242  execve(" +:+ dquote +:+ "/usr/bin/grep" +:+ dquote +:+ ", ["
       +:+ dquote +:+ "grep" +:+ dquote +:+ ", " +:+ dquote +:+ "exit_group(" +:+ dquote
       +:+ ", " +:+ dquote +:+ "f" +:+ dquote +:+ "], 0x7ffc3a5 /* 23 vars */) = 0");
   exit0_line].

(** The trace of a command that opens [out.txt] by a relative name. *)
Definition relative_lines : list string :=
  [nl ("open(" +:+ dquote +:+ "out.txt" +:+ dquote +:+ ", O_RDONLY) = 3"); exit0_line].

(** ** Further example data *)

(** A configuration with an include root and an exclude root below it. *)
Definition build_cfg : config := Config false ["."] (Some ["build"]).

(** A store with one command and one record. *)
Definition demo_deps : deps_map :=
  {[ "cat out.txt" := [("out.txt", Some "hello", MTime 10)] ]}.

(** The traced run of a command that reads [out.txt] and fails. *)
Definition failing_lines : list string :=
  [nl ("open(" +:+ dquote +:+ "out.txt" +:+ dquote +:+ ", O_RDONLY) = 3");
   nl "4242  exit_group(2)                           = ?"].

(** The demo directory after [out.txt] was rewritten. *)
Definition changed_os : os_state :=
  OsState "/w" (<["/w/out.txt" := File true true "hello, world" 11]> (nodes demo_os)) 100.


(** ** Data for the further properties *)

(** The demo directory after [out.txt] was touched: the same content
    under a newer modification time. *)
Definition touched_os : os_state :=
  OsState "/w" (<["/w/out.txt" := File true true "hello" 99]> (nodes demo_os)) 100.

(** [other] names a file other than the one [path] names. *)
Definition other_file (st : os_state) (path other : string) : Prop :=
  abspath (cwd st) other <> abspath (cwd st) path.

(** A second store, with two commands. *)
Definition demo_deps2 : deps_map :=
  <[ "ls" := [("a", Some "A", MTime 30)] ]> demo_deps.

(** The state [write_deps] leaves: what [os_write] returns, and the
    state as it was when the store path cannot be opened for writing. *)
Definition after_write `{Externals} (st : os_state) (depsname : string) (deps : deps_map) : os_state :=
  default st (os_write st depsname (pickle_dumps deps)).

(** [path] names a regular file. *)
Definition names_file (st : os_state) (path : string) : Prop :=
  exists r w data t, os_lookup st path = Some (File r w data t).


(** A line of a trace that is no file access the patterns know. *)
Definition access_line : string :=
  nl ("access(" +:+ dquote +:+ "/etc/ld.so.preload" +:+ dquote
      +:+ ", R_OK) = -1 ENOENT (No such file or directory)").


(** A namespace with another list of directories. *)
Definition set_directory (dirs : list argval) (ns : Arguments) : Arguments :=
  MkArguments (arg_timestamps ns) dirs (arg_ignore ns) (arg_verbose ns) (arg_filename ns)
              (arg_command ns).

(** The namespace of the command line [cat out.txt], without options. *)
Definition cat_args : Namespace :=
  MkNamespace false ["."] None false ".deps3" ["cat"; "out.txt"].

(** The demo process once the store of [demo_deps] was written. *)
Definition stored_proc : proc :=
  Proc (after_write (H := replay []) demo_os ".deps3" demo_deps) [] [].

(** ** Lines as the tracer writes them *)

(** No character of [s] is a newline. *)
Fixpoint no_newline (s : string) : bool :=
  match s with
  | EmptyString => true
  | String c s' => negb (is_newline c) && no_newline s'
  end.

(** [lit] occurs in [s], at the start or further on. *)
Fixpoint occurs (lit s : string) : bool :=
  match strip_prefix lit s with
  | Some _ => true
  | None =>
      match s with
      | EmptyString => false
      | String _ s' => occurs lit s'
      end
  end.

(** [s] without its first character. *)
Definition string_tail (s : string) : string :=
  match s with
  | EmptyString => EmptyString
  | String _ s' => s'
  end.

(** The shape of the exit pattern and of four of the five path patterns:
    anything, the text [before], the group, the text [after], anything. *)
Definition simple_pattern (before after : string) : regex :=
  [DotStar; Lit before; GroupDotStar; Lit after; DotStar].

(** ** Reading a command string back *)

(** The text of a quoted word after its opening quote: up to the closing
    quote, where a quote followed by the four characters that reopen the
    quotation stands for a quote of the word. *)
Fixpoint read_quoted (s : string) : option (string * string) :=
  match s with
  | EmptyString => None
  | String c s' =>
      if Ascii.eqb c "'" then
        match s' with
        | String c1 (String c2 (String c3 (String c4 rest))) =>
            if Ascii.eqb c1 "034" && Ascii.eqb c2 "'" && Ascii.eqb c3 "034" && Ascii.eqb c4 "'"
            then match read_quoted rest with
                 | Some (w, r) => Some (String "'" w, r)
                 | None => None
                 end
            else Some (EmptyString, s')
        | _ => Some (EmptyString, s')
        end
      else match read_quoted s' with
           | Some (w, r) => Some (String c w, r)
           | None => None
           end
  end.

(** The text of a word left as it is: up to the next space. *)
Fixpoint read_plain (s : string) : string * string :=
  match s with
  | EmptyString => (EmptyString, EmptyString)
  | String c s' =>
      if Ascii.eqb c " " then (EmptyString, s)
      else let '(w, r) := read_plain s' in (String c w, r)
  end.

(** The first word of a command string, and what follows it. *)
Definition next_word (s : string) : option (string * string) :=
  match s with
  | EmptyString => None
  | String c s' => if Ascii.eqb c "'" then read_quoted s' else Some (read_plain s)
  end.

(** What may follow a word: the end, or a space. *)
Definition word_end (rest : string) : Prop :=
  match rest with
  | EmptyString => True
  | String c _ => c = " "%char
  end.

(** * The model on small inputs *)

Example normpath_ex1 : normpath "a/./b/../c//d/" = "a/c/d".
Proof. reflexivity. Qed.
Example normpath_ex2 : normpath "//x/../.." = "//".
Proof. reflexivity. Qed.
Example normpath_ex3 : normpath "../a/../.." = "../..".
Proof. reflexivity. Qed.
Example abspath_ex1 : abspath "/w" "./out.txt" = "/w/out.txt".
Proof. reflexivity. Qed.
Example re_open_ex :
  re_match re_open (nl ("1234  open(" +:+ dquote +:+ "a/b.c" +:+ dquote +:+ ", O_RDONLY) = 3"))
  = Some "a/b.c".
Proof. reflexivity. Qed.
Example re_rename_ex :
  re_match re_rename (nl ("rename(" +:+ dquote +:+ "t.tmp" +:+ dquote +:+ ", "
                          +:+ dquote +:+ "out.o" +:+ dquote +:+ ") = 0"))
  = Some "out.o".
Proof. reflexivity. Qed.
Example re_stat_not_stat64 :
  re_match re_stat (nl ("stat64(" +:+ dquote +:+ "x" +:+ dquote +:+ ", {...}) = 0")) = None.
Proof. reflexivity. Qed.
Example re_exit_ex :
  re_match re_exit_group (nl "1234  exit_group(2)                           = ?") = Some "2".
Proof. reflexivity. Qed.
Example py_int_ex1 : py_int " -1_0 " = Some (-10)%Z.
Proof. reflexivity. Qed.
Example py_int_ex2 : py_int "1).txt" = None.
Proof. reflexivity. Qed.
Example py_int_ex3 : py_int "" = None.
Proof. reflexivity. Qed.
Example py_int_ex4 : py_int (String "028" "2") = None.
Proof. reflexivity. Qed.
Example py_int_ex5 : py_int (String "160" "2") = Some 2%Z.
Proof. reflexivity. Qed.
Example py_int_ex6 :
  py_int (String.concat "" (replicate 4300 "7")) <> None
  /\ py_int (String.concat "" (replicate 4301 "7")) = None
  /\ py_int (String.concat "_" (replicate 4300 "7")) <> None.
Proof. repeat split; vm_compute; congruence. Qed.
Example parse_args_ex :
  parse_args ["-d"; "src"; "--timestamps"; "make"; "-d"; "x"]
  = Parsed (MkArguments true [Str "."; Str "src"] None false (Str ".deps3") ["make"; "-d"; "x"]).
Proof. reflexivity. Qed.
Example parse_args_spellings :
  parse_args ["--directory=src"; "-dlib"; "--dir"; "x"; "-d"; "-1"; "-tv"]
  = Parsed (MkArguments true [Str "."; Str "src"; Str "lib"; Str "x"; Str "-1"] None true
                        (Str ".deps3") []).
Proof. reflexivity. Qed.
Example parse_args_dashes :
  parse_args ["-t"; "--"; "make"; "-d"]
  = Parsed (MkArguments true [Str "."] None false (Str ".deps3") ["--"; "make"; "-d"]).
Proof. reflexivity. Qed.
Example parse_args_empty_list :
  parse_args ["-d=--"; "-f--"; "make"]
  = Parsed (MkArguments false [Str "."; EmptyList] None false EmptyList ["make"]).
Proof. reflexivity. Qed.
Example parse_args_ambiguous : parse_args ["make"; "--=x"] = SystemExit 2.
Proof. reflexivity. Qed.
Example parse_args_unknown : parse_args ["-x"; "make"] = SystemExit 2.
Proof. reflexivity. Qed.
Example parse_args_missing_value : parse_args ["-d"; "--"; "x"] = SystemExit 2.
Proof. reflexivity. Qed.
Example parse_args_help : parse_args ["-x"; "-th"; "-d"] = SystemExit 0.
Proof. reflexivity. Qed.
Example shlex_quote_ex : shlex_quote "a b" = "'a b'".
Proof. reflexivity. Qed.

(** * Properties *)

(** ** Strings and paths *)

Lemma append_cons (a : ascii) (s t : string) : String a s +:+ t = String a (s +:+ t).
Proof. reflexivity. Qed.

Lemma append_nil (t : string) : "" +:+ t = t.
Proof. reflexivity. Qed.

Lemma startswith_spec (pre s : string) :
  startswith pre s = true <-> exists rest, s = pre +:+ rest.
Proof.
  revert s. induction pre as [|a pre IH]; intros s; simpl.
  - split; [intros _; exists s; reflexivity | reflexivity].
  - destruct s as [|b s]; simpl.
    + split; [discriminate | intros [rest H]; discriminate].
    + destruct (Ascii.eqb_spec a b) as [->|Hne].
      * rewrite IH. split; intros [rest H]; exists rest;
          rewrite append_cons in *; congruence.
      * split; [discriminate | intros [rest H]; rewrite append_cons in H; congruence].
Qed.

Lemma split_sep_cons (s : string) : exists h t, split_sep s = h :: t.
Proof.
  induction s as [|c s [h [t IH]]]; simpl; [eauto|].
  destruct (Ascii.eqb c "/"); [eauto|]. rewrite IH. eauto.
Qed.

Lemma split_sep_no_sep (s : string) : Forall (fun c => no_sep c = true) (split_sep s).
Proof.
  induction s as [|c s IH]; simpl.
  - repeat constructor.
  - destruct (Ascii.eqb c "/") eqn:E.
    + constructor; [reflexivity | exact IH].
    + destruct (split_sep s) as [|h t]; inversion IH; subst.
      * repeat constructor. simpl. rewrite E. reflexivity.
      * constructor; [simpl; rewrite E; assumption | assumption].
Qed.

Lemma split_sep_app (c t : string) :
  no_sep c = true -> split_sep (c +:+ String "/" t) = c :: split_sep t.
Proof.
  induction c as [|a c IH]; intros H; [reflexivity|].
  simpl in H. apply andb_true_iff in H as [Ha Hc].
  rewrite append_cons. simpl.
  destruct (Ascii.eqb a "/"); [discriminate|].
  rewrite (IH Hc). reflexivity.
Qed.

Lemma split_sep_single (c : string) : no_sep c = true -> split_sep c = [c].
Proof.
  induction c as [|a c IH]; simpl; intros H; [reflexivity|].
  apply andb_true_iff in H as [Ha Hc].
  destruct (Ascii.eqb a "/"); [discriminate|].
  rewrite (IH Hc). reflexivity.
Qed.

Lemma split_join_sep (l : list string) :
  l <> [] -> Forall (fun c => no_sep c = true) l -> split_sep (join_sep l) = l.
Proof.
  induction l as [|c l IH]; intros Hne Hall; [congruence|].
  inversion Hall as [|? ? Hc Hl]; subst.
  destruct l as [|c' l].
  - simpl. apply split_sep_single, Hc.
  - change (join_sep (c :: c' :: l)) with (c +:+ String "/" (join_sep (c' :: l))).
    rewrite split_sep_app by assumption. f_equal. apply IH; [discriminate | assumption].
Qed.

Lemma split_sep_seps (k : nat) (s : string) :
  split_sep (seps k +:+ s) = (replicate k "" ++ split_sep s)%list.
Proof.
  induction k as [|k IH]; [reflexivity|].
  simpl seps. rewrite append_cons. simpl. rewrite IH. reflexivity.
Qed.

(** *** [normpath] returns a fixed point of itself *)

Lemma stack_ok_nil (k : nat) : stack_ok k [].
Proof. exists 0%nat, []. split; [reflexivity|]. split; [constructor | reflexivity]. Qed.

Lemma norm_step_ok (k : nat) (acc : list string) (comp : string) :
  no_sep comp = true -> stack_ok k acc -> stack_ok k (norm_step k acc comp).
Proof.
  intros Hsep (m & body & -> & Hbody & Hk). unfold norm_step.
  destruct (String.eqb_spec comp "") as [->|Hne1]; simpl.
  { exists m, body. auto. }
  destruct (String.eqb_spec comp ".") as [->|Hne2]; simpl.
  { exists m, body. auto. }
  destruct (String.eqb_spec comp "..") as [->|Hne3]; simpl.
  - destruct body as [|top body]; simpl.
    + destruct m as [|m]; simpl.
      * destruct (Nat.eqb_spec k 0) as [->|Hk0]; simpl.
        -- exists 1%nat, []. split; [reflexivity|]. split; [constructor|]. intros []. reflexivity.
        -- apply stack_ok_nil.
      * rewrite andb_false_r. simpl.
        exists (S (S m)), []. split; [reflexivity|]. split; [constructor|].
        intros Hk0. specialize (Hk Hk0). discriminate.
    + rewrite andb_false_r. simpl.
      inversion Hbody as [|? ? Htop Hrest]; subst.
      destruct (String.eqb_spec top "..") as [->|_].
      * destruct Htop as (_ & _ & Habs & _). congruence.
      * exists m, body. auto.
  - exists m, (comp :: body). split; [reflexivity|]. split; [|exact Hk].
    constructor; [|exact Hbody]. unfold plain. auto.
Qed.

Lemma fold_norm_step_ok (k : nat) (comps acc : list string) :
  Forall (fun c => no_sep c = true) comps -> stack_ok k acc ->
  stack_ok k (fold_left (norm_step k) comps acc).
Proof.
  revert acc. induction comps as [|c comps IH]; intros acc Hall Hok; [exact Hok|].
  inversion Hall; subst. simpl. apply IH; [assumption|].
  apply norm_step_ok; assumption.
Qed.

Lemma fold_norm_step_empties (k n : nat) (comps acc : list string) :
  fold_left (norm_step k) (replicate n "" ++ comps) acc = fold_left (norm_step k) comps acc.
Proof. induction n as [|n IH]; [reflexivity | exact IH]. Qed.

Lemma fold_norm_step_dotdots (m j : nat) :
  fold_left (norm_step 0) (replicate m "..") (replicate j "..") = replicate (m + j) "..".
Proof.
  revert j. induction m as [|m IH]; intros j; [reflexivity|].
  simpl replicate at 1. simpl fold_left.
  replace (norm_step 0 (replicate j "..") "..") with (replicate (S j) "..").
  - rewrite IH. f_equal. lia.
  - destruct j; reflexivity.
Qed.

Lemma fold_norm_step_plain (k : nat) (body acc : list string) :
  Forall plain body -> fold_left (norm_step k) body acc = (rev body ++ acc)%list.
Proof.
  revert acc. induction body as [|c body IH]; intros acc Hall; [reflexivity|].
  inversion Hall as [|? ? (H1 & H2 & H3 & _) Hrest]; subst. simpl.
  rewrite <- app_assoc. simpl. rewrite <- IH by assumption. f_equal.
  unfold norm_step.
  destruct (String.eqb_spec c ""); [congruence|].
  destruct (String.eqb_spec c "."); [congruence|].
  destruct (String.eqb_spec c ".."); [congruence|]. reflexivity.
Qed.

(** Running the loop over a stack it produced gives that stack back. *)
Lemma fold_norm_step_fixed (k : nat) (acc : list string) :
  stack_ok k acc -> fold_left (norm_step k) (rev acc) [] = acc.
Proof.
  intros (m & body & -> & Hbody & Hk).
  rewrite rev_app_distr, fold_left_app.
  assert (Hrev : rev (replicate m "..") = replicate m "..").
  { clear. induction m as [|m IH]; [reflexivity|]. simpl.
    rewrite IH. clear. induction m as [|m IH]; [reflexivity|]. simpl. f_equal. exact IH. }
  rewrite Hrev.
  assert (Hdots : fold_left (norm_step k) (replicate m "..") [] = replicate m "..").
  { destruct (Nat.eq_dec k 0) as [->|Hk0].
    - change (@nil string) with (replicate 0 "..") at 1.
      rewrite fold_norm_step_dotdots. f_equal. lia.
    - rewrite (Hk Hk0). reflexivity. }
  rewrite Hdots, fold_norm_step_plain.
  - rewrite rev_involutive. reflexivity.
  - apply Forall_rev. exact Hbody.
Qed.

Lemma norm_comps_fixed (k : nat) (comps : list string) :
  Forall (fun c => no_sep c = true) comps ->
  norm_comps k (norm_comps k comps) = norm_comps k comps.
Proof.
  intros Hall. unfold norm_comps. f_equal.
  apply fold_norm_step_fixed, fold_norm_step_ok; [assumption | apply stack_ok_nil].
Qed.

(** The components [normpath] joins are not empty and hold no separator. *)
Lemma norm_comps_parts (k : nat) (comps : list string) :
  Forall (fun c => no_sep c = true) comps ->
  Forall (fun c => c <> "" /\ no_sep c = true) (norm_comps k comps).
Proof.
  intros Hall. unfold norm_comps. apply Forall_rev.
  destruct (fold_norm_step_ok k comps [] Hall (stack_ok_nil k)) as (m & body & -> & Hbody & _).
  apply Forall_app. split.
  - eapply List.Forall_impl; [|exact Hbody]. intros c (H1 & _ & _ & H4). auto.
  - clear. induction m as [|m IH]; constructor; [split; [discriminate | reflexivity] | exact IH].
Qed.

Lemma startswith_sep_cons (a : ascii) (t : string) :
  startswith "/" (String a t) = Ascii.eqb a "/".
Proof.
  cbn [startswith]. rewrite Ascii.eqb_sym. destruct (Ascii.eqb a "/"); reflexivity.
Qed.

Lemma join_sep_no_slash (l : list string) :
  Forall (fun c => c <> "" /\ no_sep c = true) l -> startswith "/" (join_sep l) = false.
Proof.
  intros Hall. destruct l as [|c l]; [reflexivity|].
  inversion Hall as [|? ? [Hne Hsep] _]; subst.
  destruct c as [|a c]; [congruence|].
  simpl in Hsep. apply andb_true_iff in Hsep as [Ha _].
  assert (Hhead : exists t, join_sep (String a c :: l) = String a t).
  { destruct l; [exists c; reflexivity | eexists; simpl; rewrite append_cons; reflexivity]. }
  destruct Hhead as [t ->]. rewrite startswith_sep_cons.
  destruct (Ascii.eqb a "/"); [discriminate | reflexivity].
Qed.

Lemma initial_slashes_le (path : string) : (initial_slashes path <= 2)%nat.
Proof.
  unfold initial_slashes. destruct (startswith "/" path); [|lia].
  destruct (startswith "//" path && negb (startswith "///" path)); lia.
Qed.

Lemma initial_slashes_seps (k : nat) (j : string) :
  (k <= 2)%nat -> startswith "/" j = false -> initial_slashes (seps k +:+ j) = k.
Proof.
  intros Hk Hj. unfold initial_slashes.
  destruct k as [|[|[|k]]]; [| | |lia].
  - simpl seps. rewrite append_nil, Hj. reflexivity.
  - simpl seps. rewrite append_cons, append_nil.
    destruct j as [|b j]; [reflexivity|]. rewrite startswith_sep_cons in Hj.
    cbn [startswith]. rewrite (Ascii.eqb_sym "/" b), Hj. reflexivity.
  - simpl seps. rewrite !append_cons, append_nil.
    destruct j as [|b j]; [reflexivity|]. rewrite startswith_sep_cons in Hj.
    cbn [startswith]. rewrite (Ascii.eqb_sym "/" b), Hj. reflexivity.
Qed.

Lemma normpath_fixed (path : string) : normpath (normpath path) = normpath path.
Proof.
  unfold normpath at 2 3.
  destruct (String.eqb_spec path "") as [_|_]; [reflexivity|].
  set (k := initial_slashes path).
  set (l := norm_comps k (split_sep path)).
  destruct (String.eqb_spec (seps k +:+ join_sep l) "") as [_|Hout]; [reflexivity|].
  pose proof (norm_comps_parts k _ (split_sep_no_sep path)) as Hparts. fold l in Hparts.
  pose proof (join_sep_no_slash l Hparts) as Hj.
  unfold normpath.
  destruct (String.eqb_spec (seps k +:+ join_sep l) "") as [E|_]; [congruence|].
  rewrite (initial_slashes_seps k _ (initial_slashes_le path) Hj).
  rewrite split_sep_seps.
  assert (Hl : norm_comps k (replicate k "" ++ split_sep (join_sep l)) = l).
  { unfold norm_comps at 1. rewrite fold_norm_step_empties.
    destruct l as [|c l'] eqn:El; [reflexivity|]. rewrite <- El in *.
    rewrite split_join_sep.
    - unfold l. apply norm_comps_fixed, split_sep_no_sep.
    - rewrite El. discriminate.
    - eapply List.Forall_impl; [|exact Hparts]. intros ? [_ H]. exact H. }
  rewrite Hl.
  destruct (String.eqb_spec (seps k +:+ join_sep l) "") as [E|_]; [congruence | reflexivity].
Qed.

(** [normpath] keeps a path absolute or relative as it was. *)
Lemma isabs_normpath (path : string) : isabs (normpath path) = isabs path.
Proof.
  unfold normpath, isabs.
  destruct (String.eqb_spec path "") as [->|_]; [reflexivity|].
  set (k := initial_slashes path).
  set (l := norm_comps k (split_sep path)).
  pose proof (norm_comps_parts k _ (split_sep_no_sep path)) as Hparts. fold l in Hparts.
  pose proof (join_sep_no_slash l Hparts) as Hj.
  assert (Hk : startswith "/" path = negb (Nat.eqb k 0)).
  { unfold k, initial_slashes. destruct (startswith "/" path); [|reflexivity].
    destruct (startswith "//" path && negb (startswith "///" path)); reflexivity. }
  rewrite Hk.
  destruct (String.eqb_spec (seps k +:+ join_sep l) "") as [E|_].
  - destruct k; [reflexivity|]. simpl seps in E. rewrite append_cons in E. discriminate.
  - destruct k; [simpl seps; rewrite append_nil; exact Hj|].
    simpl seps. rewrite append_cons. reflexivity.
Qed.

Lemma isabs_append (a b : string) : isabs a = true -> isabs (a +:+ b) = true.
Proof.
  unfold isabs. destruct a as [|c a]; [discriminate|].
  rewrite append_cons, !startswith_sep_cons. auto.
Qed.

Lemma isabs_abspath (cwd path : string) :
  isabs cwd = true -> isabs (abspath cwd path) = true.
Proof.
  intros Hcwd. unfold abspath. rewrite isabs_normpath.
  destruct (isabs path) eqn:E; [exact E|].
  unfold path_join. fold (isabs path). rewrite E.
  destruct (String.eqb cwd "" || endswith_sep cwd); apply isabs_append, Hcwd.
Qed.

Lemma abspath_normalized (cwd path : string) :
  normpath (abspath cwd path) = abspath cwd path.
Proof. unfold abspath. apply normpath_fixed. Qed.

(** ** The relevance filter *)

Lemma any_prefix_spec (st : os_state) (path1 : string) (dirs : list string) :
  any_prefix st path1 dirs = true <->
  exists d, d ∈ dirs /\ startswith (abspath (cwd st) d) path1 = true.
Proof.
  induction dirs as [|d dirs IH]; simpl.
  - split; [discriminate | intros (d & Hd & _); inversion Hd].
  - destruct (startswith (abspath (cwd st) d) path1) eqn:E.
    + split; [intros _; exists d; split; [constructor | exact E] | reflexivity].
    + rewrite IH. split; intros (d' & Hd' & Hp).
      * exists d'. split; [constructor; exact Hd' | exact Hp].
      * inversion Hd'; subst; [congruence | eauto].
Qed.

Lemma any_prefix_under (st : os_state) (roots : list string) (fname : string) :
  any_prefix st (abspath (cwd st) fname) roots = true <-> under_some st roots fname.
Proof.
  rewrite any_prefix_spec. unfold under_some, is_prefix_of.
  split; intros (d & Hd & Hp); exists d; (split; [exact Hd|]); apply startswith_spec, Hp.
Qed.

Lemma is_relevant_unfold (cfg : config) (st : os_state) (fname : string) :
  is_relevant cfg st fname =
  negb (any_prefix st (abspath (cwd st) fname) (ignore_list cfg))
  && any_prefix st (abspath (cwd st) fname) (opt_dirs cfg).
Proof.
  unfold is_relevant, ignore_list.
  destruct (ignore_dirs cfg) as [[|d ds]|];
    repeat match goal with |- context [any_prefix ?s ?p ?l] =>
      destruct (any_prefix s p l); try reflexivity end; reflexivity.
Qed.

(** C4. For every path and every configuration of include and exclude
    roots, [is_relevant] compares the absolute normalized form of the
    path with the absolute normalized form of each root by string prefix:
    it accepts exactly when no exclude root is a prefix and some include
    root is one, so it rejects by default, and a path under both an
    include root and an exclude root is rejected.  The form compared is a
    fixed point of [normpath], and is absolute when the working directory
    is. *)
Theorem is_relevant_exclude_before_include (cfg : config) (st : os_state) (fname : string) :
  (is_relevant cfg st fname = true <->
     ~ under_some st (ignore_list cfg) fname /\ under_some st (opt_dirs cfg) fname)
  /\ (under_some st (ignore_list cfg) fname -> is_relevant cfg st fname = false)
  /\ (~ under_some st (opt_dirs cfg) fname -> is_relevant cfg st fname = false)
  /\ normpath (abspath (cwd st) fname) = abspath (cwd st) fname
  /\ (forall d, normpath (abspath (cwd st) d) = abspath (cwd st) d)
  /\ (isabs (cwd st) = true ->
      isabs (abspath (cwd st) fname) = true /\
      forall d, isabs (abspath (cwd st) d) = true).
Proof.
  assert (Hiff : is_relevant cfg st fname = true <->
                 ~ under_some st (ignore_list cfg) fname /\ under_some st (opt_dirs cfg) fname).
  { rewrite is_relevant_unfold, andb_true_iff, negb_true_iff.
    rewrite <- !any_prefix_under.
    destruct (any_prefix st (abspath (cwd st) fname) (ignore_list cfg));
      split; intros [H1 H2]; split; congruence. }
  split; [exact Hiff|].
  split; [|split; [|split; [|split]]].
  - intros Hex. destruct (is_relevant cfg st fname) eqn:E; [|reflexivity].
    destruct (proj1 Hiff eq_refl) as [Hn _]. contradiction.
  - intros Hno. destruct (is_relevant cfg st fname) eqn:E; [|reflexivity].
    destruct (proj1 Hiff eq_refl) as [_ Hy]. contradiction.
  - apply abspath_normalized.
  - intros d. apply abspath_normalized.
  - intros Hcwd. split; [|intros d]; apply isabs_abspath, Hcwd.
Qed.

Lemma is_relevant_exclude_before_include_witness :
  is_relevant build_cfg demo_os "build/x.o" = false
  /\ is_relevant build_cfg demo_os "src/x.c" = true.
Proof.
  split.
  - destruct (is_relevant_exclude_before_include build_cfg demo_os "build/x.o")
      as (_ & Hexcl & _).
    apply Hexcl. exists "build". split; [constructor | exists "/x.o"; reflexivity].
  - destruct (is_relevant_exclude_before_include build_cfg demo_os "src/x.c")
      as (Hiff & _).
    apply Hiff. split.
    + intros (d & Hd & rest & Hp). apply list_elem_of_singleton in Hd as ->.
      vm_compute in Hp. discriminate.
    + exists ".". split; [constructor | exists "/src/x.c"; reflexivity].
Defined.
(** ** The option parser *)

(** An action leaves the list of directories as it was or appends to
    it, and does the same, with the same values, on any other list. *)
Lemma take_action_directory (act : action) (argument_strings : list string)
    (ns ns' : Arguments) :
  take_action act argument_strings ns = Some ns' ->
  exists added,
    arg_directory ns' = (arg_directory ns ++ added)%list
    /\ forall dirs,
         take_action act argument_strings (set_directory dirs ns)
         = Some (set_directory (dirs ++ added) ns').
Proof.
  destruct act; cbn [take_action]; intros Htake; inversion Htake; subst; cbn [arg_directory];
    try (exists []; split; [rewrite app_nil_r; reflexivity|];
         intros dirs; rewrite app_nil_r; reflexivity).
  eexists. split; [reflexivity|]. intros dirs. reflexivity.
Qed.

Lemma take_actions_directory (action_tuples : list (action * list string)) :
  forall ns ns' : Arguments,
    take_actions action_tuples ns = Some ns' ->
    exists added,
      arg_directory ns' = (arg_directory ns ++ added)%list
      /\ forall dirs,
           take_actions action_tuples (set_directory dirs ns)
           = Some (set_directory (dirs ++ added) ns').
Proof.
  induction action_tuples as [|[act argument_strings] tuples IH]; intros ns ns' Htake.
  - inversion Htake; subst. exists []. split; [rewrite app_nil_r; reflexivity|].
    intros dirs. rewrite app_nil_r. reflexivity.
  - cbn [take_actions] in Htake.
    destruct (take_action act argument_strings ns) as [ns1|] eqn:Hone; [|discriminate].
    cbn [mbind option_bind] in Htake.
    destruct (take_action_directory _ _ _ _ Hone) as (added1 & E1 & Hany1).
    destruct (IH _ _ Htake) as (added2 & E2 & Hany2).
    exists (added1 ++ added2)%list. split; [rewrite E2, E1, <- app_assoc; reflexivity|].
    intros dirs. cbn [take_actions]. rewrite Hany1. cbn [mbind option_bind].
    rewrite Hany2, <- app_assoc. reflexivity.
Qed.

(** The main loop leaves the list of directories as it was or appends
    to it, and started with any other list it appends the same values to
    that list and sets everything else the same way. *)
Lemma consume_directory (n : nat) :
  forall (items : list (string * arg_class)) (extras : list string) (ns args : Arguments),
    (length items <= n)%nat ->
    consume items extras ns = Parsed args ->
    exists added,
      arg_directory args = (arg_directory ns ++ added)%list
      /\ forall dirs,
           consume items extras (set_directory dirs ns)
           = Parsed (set_directory (dirs ++ added) args).
Proof.
  induction n as [|n IH]; intros items extras ns args Hlen Hparse.
  - destruct items; [|simpl in Hlen; lia]. cbn [consume] in Hparse |- *.
    destruct extras; [|discriminate]. inversion Hparse; subst.
    exists []. split; [rewrite app_nil_r; reflexivity|].
    intros dirs. rewrite app_nil_r. reflexivity.
  - assert (Hend : forall its : list (string * arg_class),
              match extras with
              | [] => Parsed (set_command (fst <$> its) ns)
              | _ => SystemExit 2
              end = Parsed args ->
              exists added,
                arg_directory args = (arg_directory ns ++ added)%list
                /\ forall dirs,
                     match extras with
                     | [] => Parsed (set_command (fst <$> its) (set_directory dirs ns))
                     | _ => SystemExit 2
                     end = Parsed (set_directory (dirs ++ added) args)).
    { intros its Hits. destruct extras; [|discriminate]. inversion Hits; subst.
      exists []. split; [rewrite app_nil_r; reflexivity|].
      intros dirs. rewrite app_nil_r. reflexivity. }
    assert (Hnext : forall (its : list (string * arg_class)) tuples,
              (length its <= n)%nat ->
              match take_actions tuples ns with
              | None => SystemExit 0
              | Some ns' => consume its extras ns'
              end = Parsed args ->
              exists added,
                arg_directory args = (arg_directory ns ++ added)%list
                /\ forall dirs,
                     match take_actions tuples (set_directory dirs ns) with
                     | None => SystemExit 0
                     | Some ns' => consume its extras ns'
                     end = Parsed (set_directory (dirs ++ added) args)).
    { intros its tuples Hits Hrun.
      destruct (take_actions tuples ns) as [ns'|] eqn:Htake; [|discriminate].
      destruct (take_actions_directory _ _ _ Htake) as (added1 & E1 & Hany1).
      destruct (IH _ _ _ _ Hits Hrun) as (added2 & E2 & Hany2).
      exists (added1 ++ added2)%list. split; [rewrite E2, E1, <- app_assoc; reflexivity|].
      intros dirs. rewrite Hany1, Hany2, <- app_assoc. reflexivity. }
    assert (Hone : forall (its : list (string * arg_class)) act strings,
              (length its <= n)%nat ->
              match take_action act strings ns with
              | None => SystemExit 0
              | Some ns' => consume its extras ns'
              end = Parsed args ->
              exists added,
                arg_directory args = (arg_directory ns ++ added)%list
                /\ forall dirs,
                     match take_action act strings (set_directory dirs ns) with
                     | None => SystemExit 0
                     | Some ns' => consume its extras ns'
                     end = Parsed (set_directory (dirs ++ added) args)).
    { intros its act strings Hits Hrun.
      destruct (Hnext its [(act, strings)] Hits) as (added & E & Hany).
      - cbn [take_actions]. destruct (take_action act strings ns); exact Hrun.
      - exists added. split; [exact E|]. intros dirs. specialize (Hany dirs).
        cbn [take_actions] in Hany.
        destruct (take_action act strings (set_directory dirs ns)); exact Hany. }
    destruct items as [|[arg_string cls] rest]; [apply (Hend [] Hparse)|].
    simpl in Hlen.
    destruct cls as [|[act|] option_string [explicit_arg|]|]; cbn [consume] in Hparse |- *.
    + apply (Hend _ Hparse).
    + destruct (consume_explicit act option_string explicit_arg) as [[tuples [last|]]|];
        [| |discriminate].
      * destruct (takes_value last).
        -- destruct rest as [|[value [| |]] rest']; try discriminate.
           apply (Hnext rest' _ ltac:(simpl in Hlen; lia) Hparse).
        -- apply (Hnext rest _ ltac:(lia) Hparse).
      * apply (Hnext rest _ ltac:(lia) Hparse).
    + destruct (takes_value act).
      * destruct rest as [|[value [| |]] rest']; try discriminate.
        apply (Hone rest' _ _ ltac:(simpl in Hlen; lia) Hparse).
      * apply (Hone rest _ _ ltac:(lia) Hparse).
    + apply (IH rest _ _ _ ltac:(lia) Hparse).
    + apply (IH rest _ _ _ ltac:(lia) Hparse).
    + apply (Hend _ Hparse).
Qed.

Lemma parse_args_unfold (argv : list string) :
  parse_args argv =
  match classify argv with
  | None => SystemExit 2
  | Some classes => consume (zip argv classes) [] default_arguments
  end.
Proof. reflexivity. Qed.

Lemma namespace_of_directory (args : Arguments) (ns : Namespace) :
  namespace_of args = Some ns -> Str <$> directory ns = arg_directory args.
Proof.
  unfold namespace_of. intros Hns.
  destruct (mapM text_of (arg_directory args)) as [dirs|] eqn:Hdirs; [|discriminate].
  cbn [mbind option_bind] in Hns.
  destruct (match arg_ignore args with
            | Some l => Some <$> mapM text_of l
            | None => Some None
            end) as [ign|]; [|discriminate].
  cbn [mbind option_bind] in Hns.
  destruct (text_of (arg_filename args)) as [fname|]; [|discriminate].
  inversion Hns; subst. cbn [directory].
  clear Hns. revert dirs Hdirs. induction (arg_directory args) as [|v l IH]; intros dirs Hdirs.
  - inversion Hdirs; subst. reflexivity.
  - cbn [mapM] in Hdirs. destruct v as [s|]; [|discriminate].
    cbn [text_of mbind option_bind] in Hdirs.
    destruct (mapM text_of l) as [dirs'|]; [|discriminate].
    cbn [mbind option_bind mret option_ret] in Hdirs. inversion Hdirs; subst.
    cbn [fmap list_fmap]. f_equal. apply IH. reflexivity.
Qed.

(** C10. Whatever the command line, when the parser returns, the list
    of directories starts with the default ['.'] and the values supplied
    with [-d] / [--directory], in any spelling, come after it: none
    replaces it.  The list becomes the include roots [opt_dirs], so the
    current directory is one of them.  Supplying one more directory in
    front of the command line, as [-d DIR] or as [--directory=DIR], adds
    it to the list, after the default, and changes nothing else. *)
Theorem directory_default_is_kept (argv : list string) (args : Arguments) :
  parse_args argv = Parsed args ->
  exists supplied,
    arg_directory args = Str "." :: supplied
    /\ (forall ns, namespace_of args = Some ns ->
          exists roots,
            opt_dirs (config_of_args ns) = "." :: roots
            /\ Str <$> roots = supplied
            /\ "." ∈ opt_dirs (config_of_args ns))
    /\ (forall dir, parse_optional dir = Positional ->
          parse_args ("-d" :: dir :: argv)
          = Parsed (set_directory (Str "." :: Str dir :: supplied) args))
    /\ (forall dir,
          parse_args (("--directory=" +:+ dir) :: argv)
          = Parsed (set_directory (Str "." :: get_values dir :: supplied) args)).
Proof.
  rewrite parse_args_unfold. intros Hparse.
  destruct (classify argv) as [classes|] eqn:Hclasses; [|discriminate].
  destruct (consume_directory _ _ _ _ _ (le_n _) Hparse) as (supplied & Hdirs & Hany).
  cbn [default_arguments arg_directory app] in Hdirs.
  exists supplied. split; [exact Hdirs|]. split; [|split].
  - intros ns Hns. apply namespace_of_directory in Hns. rewrite Hdirs in Hns.
    cbn [config_of_args opt_dirs].
    destruct (directory ns) as [|d roots]; [discriminate|].
    cbn [fmap list_fmap] in Hns. inversion Hns; subst.
    exists roots. split; [reflexivity|]. split; [reflexivity | constructor].
  - intros dir Hdir. rewrite parse_args_unfold.
    assert (Hnot : String.eqb dir "--" = false).
    { destruct (String.eqb_spec dir "--") as [->|]; [discriminate Hdir | reflexivity]. }
    cbn [classify]. change (String.eqb "-d" "--") with false. cbv iota.
    change (parse_optional "-d") with (OptionTuple (Some ActDirectory) "-d" None).
    cbv iota. rewrite Hnot, Hdir, Hclasses.
    cbn [fmap option_fmap option_map zip_with consume takes_value take_action].
    unfold get_values. rewrite Hnot.
    apply (Hany [Str "."; Str dir]).
  - intros dir. rewrite parse_args_unfold.
    assert (Hopt : parse_optional ("--directory=" +:+ dir)
                   = OptionTuple (Some ActDirectory) "--directory" (Some dir)).
    { rewrite !append_cons, append_nil. reflexivity. }
    assert (Hnot : String.eqb ("--directory=" +:+ dir) "--" = false).
    { rewrite !append_cons. reflexivity. }
    assert (Hex : consume_explicit ActDirectory "--directory" dir
                  = Some ([(ActDirectory, [dir])], None)) by (destruct dir; reflexivity).
    cbn [classify]. rewrite Hnot, Hopt, Hclasses.
    cbn [fmap option_fmap option_map zip_with consume]. rewrite Hex.
    cbn [take_actions take_action mbind option_bind].
    apply (Hany [Str "."; get_values dir]).
Qed.

Lemma directory_default_is_kept_witness :
  exists supplied,
    arg_directory
      (MkArguments false [Str "."; Str "src"; Str "lib"; Str "x"] None true (Str ".deps3")
                   ["make"; "-d"; "y"])
    = Str "." :: supplied
    /\ parse_args ["-d"; "more"; "--directory=src"; "-v"; "-dlib"; "--dir"; "x"; "make"; "-d"; "y"]
       = Parsed (set_directory (Str "." :: Str "more" :: supplied)
                   (MkArguments false [Str "."; Str "src"; Str "lib"; Str "x"] None true
                                (Str ".deps3") ["make"; "-d"; "y"])).
Proof.
  destruct (directory_default_is_kept
              ["--directory=src"; "-v"; "-dlib"; "--dir"; "x"; "make"; "-d"; "y"]
              (MkArguments false [Str "."; Str "src"; Str "lib"; Str "x"] None true
                           (Str ".deps3") ["make"; "-d"; "y"]))
    as (supplied & Hdirs & _ & Hadd & _).
  - reflexivity.
  - exists supplied. split; [exact Hdirs|]. apply Hadd. reflexivity.
Defined.

(** ** The dependency store *)

Lemma bits_to_pos_to_bits (n : positive) : bits_to_pos (pos_to_bits n) = Some n.
Proof.
  induction n as [n IH|n IH|]; cbn [pos_to_bits bits_to_pos].
  - change (Ascii.eqb "1" ".") with false. change (Ascii.eqb "1" "0") with false.
    change (Ascii.eqb "1" "1") with true. cbv iota. rewrite IH. reflexivity.
  - change (Ascii.eqb "0" ".") with false. change (Ascii.eqb "0" "0") with true.
    cbv iota. rewrite IH. reflexivity.
  - reflexivity.
Qed.

Lemma scripted_pickle_roundtrip run : @pickle_roundtrip (scripted run).
Proof.
  intros d. cbn [pickle_loads pickle_dumps scripted].
  rewrite bits_to_pos_to_bits. cbn [mbind option_bind]. apply decode_encode.
Qed.

Lemma scripted_pickle_rejects_empty run : @pickle_rejects_empty (scripted run).
Proof. reflexivity. Qed.

Lemma os_read_none (st : os_state) (path : string) :
  os_read st path = None <-> cannot_open st path.
Proof.
  unfold os_read, cannot_open.
  destruct (os_lookup st path) as [[[] ? ? ?|? ?]|]; split; intros Hx;
    try discriminate; try contradiction; try exact I; reflexivity.
Qed.

Section StoreRead.
Context `{Ext : Externals}.

Lemma read_deps_unfold (depsname : string) (p : proc) :
  read_deps depsname p =
  match os_read (os p) depsname with
  | None => Ok ∅
  | Some bytes =>
      match pickle_loads bytes with
      | Some deps => Ok deps
      | None => Raise UnpicklingError
      end
  end.
Proof. reflexivity. Qed.

(** A store file that opens but is empty makes [read_deps] raise. *)
Lemma read_deps_empty_file_raises (depsname : string) (p : proc) :
  pickle_rejects_empty ->
  os_read (os p) depsname = Some "" ->
  read_deps depsname p = Raise UnpicklingError.
Proof. intros Hempty Hread. rewrite read_deps_unfold, Hread, Hempty. reflexivity. Qed.

(** C7 (amended). [read_deps] returns the unpickled mapping when the store
    file opens and unpickles, and the empty mapping when the file cannot
    be opened, which is the case when it is absent, a directory, or not
    readable.  A file that opens and does not unpickle is not caught:
    the error of [pickle.load] reaches the caller. *)
Theorem read_deps_open_failure_is_empty (depsname : string) (p : proc) :
  (cannot_open (os p) depsname -> read_deps depsname p = Ok ∅)
  /\ (forall bytes deps,
        os_read (os p) depsname = Some bytes -> pickle_loads bytes = Some deps ->
        read_deps depsname p = Ok deps)
  /\ (forall bytes,
        os_read (os p) depsname = Some bytes -> pickle_loads bytes = None ->
        read_deps depsname p = Raise UnpicklingError).
Proof.
  split; [|split].
  - intros Hno. apply os_read_none in Hno. rewrite read_deps_unfold, Hno. reflexivity.
  - intros bytes deps Hread Hload. rewrite read_deps_unfold, Hread, Hload. reflexivity.
  - intros bytes Hread Hload. rewrite read_deps_unfold, Hread, Hload. reflexivity.
Qed.

End StoreRead.

(** What [os_write] does on a path that can be opened: the path then
    names a readable and writable file with the data written, and every
    other path reads as before and names the regular file it named. *)
Lemma os_write_openable (st : os_state) (path data : string) :
  store_openable st path = true ->
  exists st',
    os_write st path data = Some st'
    /\ cwd st' = cwd st /\ clock st' = clock st
    /\ os_lookup st' path = Some (File true true data (clock st))
    /\ (forall other, other_file st path other -> os_read st' other = os_read st other)
    /\ (forall other, other_file st path other -> names_file st other ->
          os_lookup st' other = os_lookup st other).
Proof.
  unfold store_openable, os_write, os_lookup, other_file, os_read, names_file, os_lookup.
  set (key := abspath (cwd st) path).
  destruct (nodes st !! key) as [[[] [] ? ?|? ?]|] eqn:Hkey; try discriminate.
  - intros _. eexists. split; [reflexivity|]. cbn [cwd nodes clock].
    split; [reflexivity|]. split; [reflexivity|].
    split; [apply lookup_insert_eq|].
    split; intros other Hother; [|intros _];
      rewrite lookup_insert_ne by (intros E; apply Hother; symmetry; exact E); reflexivity.
  - set (parent := normpath (path_join key "..")).
    destruct (nodes st !! parent) as [[? ? ? ?|[] ?]|] eqn:Hparent; try discriminate.
    intros _. eexists. split; [reflexivity|]. cbn [cwd nodes clock].
    split; [reflexivity|]. split; [reflexivity|].
    split; [apply lookup_insert_eq|].
    split; intros other Hother.
    + rewrite lookup_insert_ne by (intros E; apply Hother; symmetry; exact E).
      destruct (decide (abspath (cwd st) other = parent)) as [->|Hne].
      * rewrite lookup_insert_eq, Hparent. reflexivity.
      * rewrite lookup_insert_ne by (intros E; apply Hne; symmetry; exact E). reflexivity.
    + intros (r & w & d & t & Hfile).
      rewrite lookup_insert_ne by (intros E; apply Hother; symmetry; exact E).
      apply lookup_insert_ne. intros E. rewrite <- E, Hparent in Hfile. discriminate.
Qed.

Section StoreWrite.
Context `{Ext : Externals}.

Lemma write_deps_openable (depsname : string) (deps : deps_map) (p : proc) :
  store_openable (os p) depsname = true ->
  write_deps depsname deps p
  = Ok (Proc (after_write (os p) depsname deps) (stdout p) (spawned p)).
Proof.
  intros Hopen. unfold write_deps, after_write.
  destruct (os_write_openable (os p) depsname (pickle_dumps deps) Hopen) as (st' & -> & _).
  reflexivity.
Qed.

Lemma os_read_after_write (st : os_state) (depsname : string) (deps : deps_map) :
  store_openable st depsname = true ->
  os_read (after_write st depsname deps) depsname = Some (pickle_dumps deps).
Proof.
  intros Hopen. unfold after_write.
  destruct (os_write_openable st depsname (pickle_dumps deps) Hopen)
    as (st' & -> & _ & _ & Hnode & _).
  cbv [default from_option id]. unfold os_read. rewrite Hnode. reflexivity.
Qed.

Lemma store_openable_after_write (st : os_state) (depsname : string) (deps : deps_map) :
  store_openable st depsname = true ->
  store_openable (after_write st depsname deps) depsname = true.
Proof.
  intros Hopen. unfold after_write.
  destruct (os_write_openable st depsname (pickle_dumps deps) Hopen)
    as (st' & -> & _ & _ & Hnode & _).
  cbv [default from_option id]. unfold store_openable. rewrite Hnode. reflexivity.
Qed.

Lemma os_read_other_after_write (st : os_state) (depsname other : string) (deps : deps_map) :
  store_openable st depsname = true ->
  other_file st depsname other ->
  os_read (after_write st depsname deps) other = os_read st other.
Proof.
  intros Hopen Hother. unfold after_write.
  destruct (os_write_openable st depsname (pickle_dumps deps) Hopen)
    as (st' & -> & _ & _ & _ & Hread & _).
  apply Hread, Hother.
Qed.

Lemma os_lookup_after_write (st : os_state) (depsname other : string) (deps : deps_map) :
  store_openable st depsname = true ->
  other_file st depsname other ->
  names_file st other ->
  os_lookup (after_write st depsname deps) other = os_lookup st other.
Proof.
  intros Hopen Hother Hfile. unfold after_write.
  destruct (os_write_openable st depsname (pickle_dumps deps) Hopen)
    as (st' & -> & _ & _ & _ & _ & Hsame).
  apply Hsame; assumption.
Qed.

Lemma write_then_read (depsname : string) (deps : deps_map) (p : proc) :
  pickle_roundtrip ->
  store_openable (os p) depsname = true ->
  exists p',
    write_deps depsname deps p = Ok p'
    /\ read_deps depsname p' = Ok deps
    /\ os_read (os p') depsname = Some (pickle_dumps deps)
    /\ stdout p' = stdout p /\ spawned p' = spawned p.
Proof.
  intros Hround Hopen. rewrite (write_deps_openable _ _ _ Hopen).
  eexists. split; [reflexivity|]. cbn [os stdout spawned].
  rewrite read_deps_unfold. cbn [os]. rewrite (os_read_after_write _ _ _ Hopen), Hround. auto.
Qed.

(** C8 (amended). Saving a mapping to a store path that can be opened
    for writing and then for reading, and loading from that path, yields
    the mapping saved, hence the same record list, with all its fields,
    under every command, given that [pickle.load] returns what
    [pickle.dump] was given. *)
Theorem write_deps_then_read_deps (depsname : string) (deps : deps_map) (p : proc) :
  pickle_roundtrip ->
  store_openable (os p) depsname = true ->
  exists p' loaded,
    write_deps depsname deps p = Ok p'
    /\ read_deps depsname p' = Ok loaded
    /\ loaded = deps
    /\ (forall cmd, loaded !! cmd = deps !! cmd).
Proof.
  intros Hround Hopen.
  destruct (write_then_read depsname deps p Hround Hopen) as (p' & Hw & Hr & _).
  exists p', deps. auto.
Qed.

End StoreWrite.

Lemma read_deps_open_failure_is_empty_witness :
  read_deps (Ext := replay []) ".deps3" demo_proc = Ok ∅.
Proof.
  apply (read_deps_open_failure_is_empty (Ext := replay []) ".deps3" demo_proc).
  exact I.
Defined.

(** C7, as stated, fails: an existing store file that is empty is not a
    pickle, and loading it raises instead of returning the empty mapping. *)
Lemma read_deps_raises_on_corrupt_store :
  os_read (os corrupt_store_proc) ".deps3" = Some ""
  /\ pickle_loads (Externals := replay []) "" = None
  /\ read_deps (Ext := replay []) ".deps3" corrupt_store_proc = Raise UnpicklingError
  /\ read_deps (Ext := replay []) ".deps3" corrupt_store_proc <> Ok ∅.
Proof.
  assert (Hread : os_read (os corrupt_store_proc) ".deps3" = Some "") by reflexivity.
  assert (Hraise : read_deps (Ext := replay []) ".deps3" corrupt_store_proc
                   = Raise UnpicklingError).
  { apply read_deps_empty_file_raises; [apply scripted_pickle_rejects_empty | exact Hread]. }
  split; [exact Hread|]. split; [reflexivity|]. split; [exact Hraise|].
  rewrite Hraise. discriminate.
Qed.

Lemma write_deps_then_read_deps_witness :
  exists p' loaded,
    write_deps (Ext := replay []) ".deps3" demo_deps demo_proc = Ok p'
    /\ read_deps (Ext := replay []) ".deps3" p' = Ok loaded
    /\ loaded = demo_deps
    /\ (forall cmd, loaded !! cmd = demo_deps !! cmd).
Proof.
  apply (write_deps_then_read_deps (Ext := replay []) ".deps3" demo_deps demo_proc).
  - apply scripted_pickle_roundtrip.
  - reflexivity.
Defined.

(** C8, as stated, fails: on a store file that the process may write
    and not read, saving succeeds, and loading then finds a file it
    cannot open and returns the empty mapping, not the mapping saved. *)
Lemma write_only_store_loads_empty :
  os_lookup (os write_only_store_proc) ".deps3" = Some (File false true "" 50)
  /\ (p' ← write_deps (Ext := replay []) ".deps3" demo_deps write_only_store_proc;
      read_deps (Ext := replay []) ".deps3" p') = Ok ∅
  /\ demo_deps !! "cat out.txt" = Some [("out.txt", Some "hello", MTime 10)]
  /\ (∅ : deps_map) !! "cat out.txt" = None.
Proof. repeat split; vm_compute; reflexivity. Qed.

(** ** Fingerprints and the staleness check *)

Lemma read_block_length (n : nat) (stream buf rest : string) :
  read_block n stream = (buf, rest) ->
  (String.length buf + String.length rest = String.length stream)%nat.
Proof.
  revert stream buf rest. induction n as [|n IH]; intros stream buf rest Hr.
  - destruct stream; inversion Hr; reflexivity.
  - destruct stream as [|c stream]; [inversion Hr; reflexivity|].
    cbn [read_block] in Hr. destruct (read_block n stream) as [b r] eqn:E.
    inversion Hr; subst. cbn [String.length]. rewrite <- (IH _ _ _ E). lia.
Qed.

Lemma read_block_append (n : nat) (stream buf rest : string) :
  read_block n stream = (buf, rest) -> buf +:+ rest = stream.
Proof.
  revert stream buf rest. induction n as [|n IH]; intros stream buf rest Hr.
  - destruct stream; inversion Hr; reflexivity.
  - destruct stream as [|c stream]; [inversion Hr; reflexivity|].
    cbn [read_block] in Hr. destruct (read_block n stream) as [b r] eqn:E.
    inversion Hr; subst. rewrite append_cons, (IH _ _ _ E). reflexivity.
Qed.

Lemma append_empty_r (s : string) : s +:+ "" = s.
Proof. induction s as [|a s IH]; [reflexivity | rewrite append_cons, IH; reflexivity]. Qed.

Lemma blocksize_pos : (0 < blocksize)%nat.
Proof. unfold blocksize. lia. Qed.

(** A read of a positive size returns nothing only at the end. *)
Lemma read_block_empty (n : nat) (stream buf rest : string) :
  (0 < n)%nat -> read_block n stream = (buf, rest) -> buf = "" ->
  stream = "" /\ rest = "".
Proof.
  intros Hn Hr ->. destruct n as [|n]; [lia|].
  destruct stream as [|c stream]; [inversion Hr; auto|].
  cbn [read_block] in Hr. destruct (read_block n stream). inversion Hr.
Qed.

Section Fingerprint.
Context `{Ext : Externals}.

(** The fuel [hash_file] gives the loop is enough: the loop ends because
    a read returned nothing, and more fuel changes nothing. *)
Lemma hash_loop_fuel (fuel : nat) :
  forall (h : hasher) (buf stream : string),
    (String.length buf + String.length stream < fuel)%nat ->
    hash_loop (S fuel) h buf stream = hash_loop fuel h buf stream.
Proof.
  induction fuel as [|fuel IH]; intros h buf stream Hlt; [lia|].
  cbn [hash_loop]. destruct (0 <? String.length buf)%nat eqn:Hbuf; [|reflexivity].
  apply Nat.ltb_lt in Hbuf.
  destruct (read_block blocksize stream) as [buf' stream'] eqn:Hr.
  pose proof (read_block_length _ _ _ _ Hr) as Hlen.
  pose proof (IH (update h buf) buf' stream') as IH'.
  cbn [hash_loop] in IH'. apply IH'. lia.
Qed.

(** With a hash object for which feeding two blocks is feeding their
    concatenation, the loop hashes the whole content. *)
Lemma hash_loop_whole (fuel : nat) :
  (forall h a b, update (update h a) b = update h (a +:+ b)) ->
  forall (h : hasher) (buf stream : string),
    (String.length buf + String.length stream < fuel)%nat ->
    (buf = "" -> stream = "") ->
    hash_loop fuel h buf stream =
    if (0 <? String.length buf)%nat then update h (buf +:+ stream) else h.
Proof.
  intros Hcomp. induction fuel as [|fuel IH]; intros h buf stream Hlt Hend; [lia|].
  cbn [hash_loop]. destruct (0 <? String.length buf)%nat eqn:Hbuf; [|reflexivity].
  apply Nat.ltb_lt in Hbuf.
  destruct (read_block blocksize stream) as [buf' stream'] eqn:Hr.
  pose proof (read_block_length _ _ _ _ Hr) as Hlen.
  pose proof (read_block_append _ _ _ _ Hr) as Happ.
  pose proof (read_block_empty _ _ _ _ blocksize_pos Hr) as Hempty.
  rewrite IH; [| lia | intros E; apply Hempty, E].
  destruct (0 <? String.length buf')%nat eqn:Hbuf'.
  - rewrite Hcomp, Happ. reflexivity.
  - apply Nat.ltb_ge in Hbuf'. destruct buf'; [|simpl in Hbuf'; lia].
    destruct (Hempty eq_refl) as [-> _]. rewrite append_empty_r. reflexivity.
Qed.

Lemma hash_file_unfold (st : os_state) (fname : string) :
  hash_file st fname =
  match os_read st fname with
  | Some data =>
      let '(buf, stream) := read_block blocksize data in
      Some (hexdigest (hash_loop (S (String.length data)) sha256 buf stream))
  | None => None
  end.
Proof. reflexivity. Qed.

Lemma hash_file_none (st : os_state) (fname : string) :
  hash_file st fname = None <-> os_read st fname = None.
Proof.
  rewrite hash_file_unfold. destruct (os_read st fname) as [data|]; [|tauto].
  destruct (read_block blocksize data). split; discriminate.
Qed.

Lemma modtime_bad (st : os_state) (fname : string) :
  modtime st fname = BadModtime <-> os_getmtime st fname = None.
Proof. unfold modtime. destruct (os_getmtime st fname); split; congruence. Qed.

Lemma files_loop_spec (cfg : config) (st : os_state) (files : list file_record) :
  files_loop cfg st files = true <-> Forall (fingerprint_matches cfg st) files.
Proof.
  induction files as [|[[fname hash_digest] mtime] rest IH].
  - split; [constructor | reflexivity].
  - rewrite List.Forall_cons_iff, <- IH. unfold fingerprint_matches. cbn [files_loop fr_path fr_hash fr_mtime fst snd].
    destruct (opt_use_modtime cfg).
    + destruct (bool_decide_reflect (modtime st fname <> mtime)) as [Hne|Heq].
      * split; [discriminate | intros [Hm _]; contradiction].
      * apply dec_stable in Heq. tauto.
    + destruct (bool_decide_reflect (hash_file st fname <> hash_digest)) as [Hne|Heq].
      * split; [discriminate | intros [Hm _]; contradiction].
      * apply dec_stable in Heq. tauto.
Qed.

Lemma cache_hit_spec (cfg : config) (deps : deps_map) (cmd : string) (p : proc) :
  cache_hit cfg deps cmd p = true <->
  exists files, deps !! cmd = Some files /\ files <> []
                /\ Forall (fingerprint_matches cfg (os p)) files.
Proof.
  unfold cache_hit. destruct (deps !! cmd) as [[|r l]|] eqn:E; cbn [truthy andb files_up_to_date].
  - split; [discriminate | intros (f & Hf & Hne & _); congruence].
  - rewrite files_loop_spec. split.
    + intros Hall. exists (r :: l). split; [reflexivity|]. split; [discriminate | exact Hall].
    + intros (f & Hf & _ & Hall). inversion Hf; subst. exact Hall.
  - split; [discriminate | intros (f & Hf & _); discriminate].
Qed.

End Fingerprint.

(** ** The memoization engine *)

Section Engine.
Context `{Ext : Externals}.

Lemma generate_deps_spawned (cfg : config) (cmd : string) (p p1 : proc)
    (status : Z) (files : list file_record) :
  generate_deps cfg cmd p = Ok (status, files, p1) ->
  spawned p1 = (spawned p ++ [cmd])%list /\ stdout p1 = stdout p
  /\ exists lines, strace (os p) cmd = (os p1, Some lines)
                   /\ parse_trace cfg (os p1) lines = Ok (status, files).
Proof.
  unfold generate_deps. destruct (strace (os p) cmd) as [st1 [lines|]]; [|discriminate].
  destruct (parse_trace cfg st1 lines) as [[s f]|e] eqn:Hparse; [|discriminate].
  cbn. intros Hok. inversion Hok; subst. cbn. eauto.
Qed.

Lemma write_deps_frame (depsname : string) (deps : deps_map) (p p' : proc) :
  write_deps depsname deps p = Ok p' -> spawned p' = spawned p /\ stdout p' = stdout p.
Proof.
  unfold write_deps. destruct (os_write (os p) depsname (pickle_dumps deps)); [|discriminate].
  intros Hok. inversion Hok; subst. auto.
Qed.

(** The [else] branch hands the command to [subprocess.call]. *)
Lemma run_and_record_spawned (cfg : config) (depsname : string) (deps deps' : deps_map)
    (cmd : string) (p p' : proc) (status : Z) :
  run_and_record cfg depsname deps cmd p = Ok (status, deps', p') ->
  spawned p' = (spawned p ++ [cmd])%list.
Proof.
  unfold run_and_record.
  destruct (generate_deps cfg cmd p) as [[[s f] p1]|e] eqn:Hgen; [|discriminate].
  apply generate_deps_spawned in Hgen as (Hsp & _). cbn.
  match goal with |- context [write_deps ?a ?b ?c] =>
    destruct (write_deps a b c) as [p2|e] eqn:Hw end; [|discriminate].
  apply write_deps_frame in Hw as [Hw _]. cbn. intros Hok. inversion Hok; subst. congruence.
Qed.

(** C1 (amended). For a command whose stored record list is not empty
    and whose every record has a matching fingerprint of the active mode,
    the engine prints the up-to-date report and returns 0 at once: the
    dictionary and the file system are as before and no command was
    spawned.  A missing key, a record that does not match, and also a
    stored record list that is empty, send the engine to the branch that
    runs the command. *)
Theorem matching_records_are_a_hit (cfg : config) (depsname : string) (deps : deps_map)
    (cmd : string) (p : proc) :
  (forall files,
      deps !! cmd = Some files -> files <> [] ->
      Forall (fingerprint_matches cfg (os p)) files ->
      exists p', memoize_with_deps cfg depsname deps cmd p = Ok (0%Z, deps, p')
                 /\ os p' = os p /\ spawned p' = spawned p
                 /\ stdout p' = (stdout p ++ ["MEMOIZE: Up to date: " +:+ cmd])%list)
  /\ (deps !! cmd = None ->
      memoize_with_deps cfg depsname deps cmd p = run_and_record cfg depsname deps cmd p)
  /\ (forall files r,
      deps !! cmd = Some files -> r ∈ files -> ~ fingerprint_matches cfg (os p) r ->
      memoize_with_deps cfg depsname deps cmd p = run_and_record cfg depsname deps cmd p)
  /\ (deps !! cmd = Some [] ->
      memoize_with_deps cfg depsname deps cmd p = run_and_record cfg depsname deps cmd p)
  /\ (forall status deps' p',
      run_and_record cfg depsname deps cmd p = Ok (status, deps', p') ->
      spawned p' = (spawned p ++ [cmd])%list).
Proof.
  pose proof (cache_hit_spec cfg deps cmd p) as Hspec.
  unfold memoize_with_deps.
  split; [|split; [|split; [|split]]].
  - intros files Hget Hne Hall.
    assert (Hhit : cache_hit cfg deps cmd p = true) by (apply Hspec; eauto).
    rewrite Hhit. eexists. split; [reflexivity|]. cbn. auto.
  - intros Hget. destruct (cache_hit cfg deps cmd p); [|reflexivity].
    destruct (proj1 Hspec eq_refl) as (f & Hf & _). congruence.
  - intros files r Hget Hin Hno. destruct (cache_hit cfg deps cmd p); [|reflexivity].
    destruct (proj1 Hspec eq_refl) as (f & Hf & _ & Hall).
    assert (f = files) by congruence. subst f.
    rewrite List.Forall_forall in Hall. exfalso. apply Hno, Hall.
    apply list_elem_of_In, Hin.
  - intros Hget. destruct (cache_hit cfg deps cmd p); [|reflexivity].
    destruct (proj1 Hspec eq_refl) as (f & Hf & Hne & _). congruence.
  - intros status deps' p'. apply run_and_record_spawned.
Qed.

(** C3 (amended). [hash_file] yields [None] exactly when the file cannot
    be read and [modtime] yields ['bad_modtime'], which no time equals,
    exactly when it cannot be inspected.  A record whose stored
    fingerprint of the active mode is a digest or a time, and whose file
    can no longer be fingerprinted, makes the check answer "changed": the
    engine takes the branch that runs the command, and the check itself
    raises nothing. *)
Theorem lost_file_is_a_miss (cfg : config) (depsname : string) (deps : deps_map)
    (cmd : string) (p : proc) (files : list file_record) (r : file_record) :
  (forall path, hash_file (os p) path = None <-> os_read (os p) path = None)
  /\ (forall path, modtime (os p) path = BadModtime <-> os_getmtime (os p) path = None)
  /\ (forall t, BadModtime <> MTime t)
  /\ (r ∈ files -> fingerprint_fails cfg (os p) r -> stored_fingerprint_real cfg r ->
      files_up_to_date cfg (os p) (Some files) = false
      /\ (deps !! cmd = Some files ->
          cache_hit cfg deps cmd p = false
          /\ memoize_with_deps cfg depsname deps cmd p
             = run_and_record cfg depsname deps cmd p)).
Proof.
  split; [intros path; apply hash_file_none|].
  split; [intros path; apply modtime_bad|].
  split; [discriminate|].
  intros Hin Hfail Hreal.
  assert (Hno : ~ fingerprint_matches cfg (os p) r).
  { unfold fingerprint_matches, fingerprint_fails, stored_fingerprint_real in *.
    destruct (opt_use_modtime cfg).
    - apply modtime_bad in Hfail. congruence.
    - apply hash_file_none in Hfail. congruence. }
  assert (Hstale : files_up_to_date cfg (os p) (Some files) = false).
  { cbn [files_up_to_date]. destruct (files_loop cfg (os p) files) eqn:E; [|reflexivity].
    apply files_loop_spec in E. rewrite List.Forall_forall in E.
    exfalso. apply Hno, E, list_elem_of_In, Hin. }
  split; [exact Hstale|]. intros Hget.
  assert (Hmiss : cache_hit cfg deps cmd p = false).
  { unfold cache_hit. rewrite Hget, Hstale. apply andb_false_r. }
  split; [exact Hmiss|]. unfold memoize_with_deps. rewrite Hmiss. reflexivity.
Qed.

End Engine.

Lemma matching_records_are_a_hit_witness :
  exists p',
    memoize_with_deps (Ext := replay []) demo_cfg ".deps3" demo_deps "cat out.txt" demo_proc
    = Ok (0%Z, demo_deps, p')
    /\ os p' = os demo_proc /\ spawned p' = spawned demo_proc
    /\ stdout p' = (stdout demo_proc ++ ["MEMOIZE: Up to date: cat out.txt"])%list.
Proof.
  destruct (matching_records_are_a_hit (Ext := replay []) demo_cfg ".deps3" demo_deps
              "cat out.txt" demo_proc) as (Hhit & _).
  apply (Hhit [("out.txt", Some "hello", MTime 10)]).
  - reflexivity.
  - discriminate.
  - constructor; [reflexivity | constructor].
Defined.

(** C1, as stated, fails: the key is present and every record of its
    (empty) list matches, yet the command is run and the store written. *)
Lemma empty_record_list_is_rerun :
  empty_set_deps !! "true" = Some []
  /\ Forall (fingerprint_matches (H := replay [exit0_line]) demo_cfg (os demo_proc)) []
  /\ exists p',
      memoize_with_deps (Ext := replay [exit0_line]) demo_cfg ".deps3" empty_set_deps
                        "true" demo_proc
      = Ok (0%Z, empty_set_deps, p')
      /\ spawned p' = ["true"]
      /\ os_read (os demo_proc) ".deps3" = None
      /\ os_read (os p') ".deps3"
         = Some (pickle_dumps (Externals := replay [exit0_line]) empty_set_deps).
Proof.
  split; [reflexivity|]. split; [constructor|].
  eexists. split; [vm_compute; reflexivity|].
  split; [reflexivity|]. split; [reflexivity|]. vm_compute. reflexivity.
Qed.

Lemma lost_file_is_a_miss_witness :
  files_up_to_date (Ext := replay []) demo_cfg gone_os
                   (Some [("secret", Some "s3", MTime 20)]) = false.
Proof.
  destruct (lost_file_is_a_miss (Ext := replay []) demo_cfg ".deps3" ∅ "stat secret"
              (Proc gone_os [] []) [("secret", Some "s3", MTime 20)]
              ("secret", Some "s3", MTime 20)) as (_ & _ & _ & Hmiss).
  assert (Hin : ("secret", Some "s3", MTime 20)
                ∈ [(("secret", Some "s3", MTime 20) : file_record)]) by constructor.
  assert (Hfail : fingerprint_fails demo_cfg gone_os ("secret", Some "s3", MTime 20))
    by reflexivity.
  assert (Hreal : stored_fingerprint_real demo_cfg ("secret", Some "s3", MTime 20))
    by discriminate.
  exact (proj1 (Hmiss Hin Hfail Hreal)).
Defined.

(** C3, as stated, fails.  In hash mode, a file that could be inspected
    but not read is recorded with an absent digest; when it is missing at
    the next check, its digest is absent again, the two compare equal,
    and the engine reports a hit without running the command.  In
    timestamp mode, a recorded file that has become unreadable still has
    its modification time, and is a hit as well. *)
Lemma lost_file_with_absent_digest_is_a_hit :
  parse_trace (Ext := replay []) demo_cfg demo_os [stat_secret_line; exit0_line]
  = Ok (0%Z, [secret_record])
  /\ os_lookup gone_os "secret" = None
  /\ hash_file (Ext := replay []) gone_os "secret" = None
  /\ files_up_to_date (Ext := replay []) demo_cfg gone_os (Some [secret_record]) = true
  /\ (exists p',
      memoize_with_deps (Ext := replay []) demo_cfg ".deps3"
                        {[ "stat secret" := [secret_record] ]} "stat secret"
                        (Proc gone_os [] [])
      = Ok (0%Z, {[ "stat secret" := [secret_record] ]}, p')
      /\ spawned p' = [])
  /\ os_read demo_os "secret" = None
  /\ files_up_to_date (Ext := replay []) (Config true ["."] None) demo_os
                      (Some [("secret", Some "s3", MTime 20)]) = true.
Proof.
  split; [vm_compute; reflexivity|]. split; [reflexivity|]. split; [reflexivity|].
  split; [reflexivity|].
  split; [eexists; split; [vm_compute; reflexivity | reflexivity]|].
  split; reflexivity.
Qed.

(** ** The trace parser *)

Lemma first_seen_elem (l : list string) (x : string) : x ∈ first_seen l <-> x ∈ l.
Proof.
  induction l as [|y l IH]; [reflexivity|].
  cbn [first_seen]. rewrite !elem_of_cons, list_elem_of_filter, IH.
  destruct (decide (x = y)); tauto.
Qed.

Lemma first_seen_NoDup (l : list string) : NoDup (first_seen l).
Proof.
  induction l as [|y l IH]; [constructor|].
  cbn [first_seen]. constructor.
  - rewrite list_elem_of_filter. tauto.
  - apply list.NoDup_filter, IH.
Qed.

Lemma filter_always (P : string -> Prop) `{forall x, Decision (P x)} (l : list string) :
  (forall x, P x) -> filter P l = l.
Proof.
  intros HP. induction l as [|x l IH]; [reflexivity|].
  rewrite filter_cons_True by apply HP. f_equal. exact IH.
Qed.

(** An element seen in an earlier part of the list is dropped from the
    later part. *)
Lemma first_seen_app (l1 l2 : list string) :
  first_seen (l1 ++ l2) = (first_seen l1 ++ filter (fun y => y ∉ l1) (first_seen l2))%list.
Proof.
  induction l1 as [|x l1 IH].
  - cbn. symmetry. apply filter_always. intros y. apply not_elem_of_nil.
  - cbn [app first_seen]. f_equal. rewrite IH, list.filter_app, list_filter_filter. f_equal.
    apply list_filter_iff. intros y. rewrite elem_of_cons. tauto.
Qed.

Section Trace.
Context `{Ext : Externals}.

Lemma regex_step_unfold (cfg : config) (st : os_state) (line : string)
    (s : parse_state) (r : regex) :
  regex_step cfg st line s r =
  match re_match re_exit_group line with
  | Some g =>
      match py_int g with
      | Some n => Ok (set_status n (path_step cfg st line s r))
      | None => Raise ValueError
      end
  | None => Ok (path_step cfg st line s r)
  end.
Proof.
  unfold regex_step, path_step, add_path, set_status, record_of.
  destruct (re_match r line); reflexivity.
Qed.

Lemma add_path_set_status (cfg : config) (st : os_state) (n : Z) (s : parse_state)
    (fname : string) :
  add_path cfg st (set_status n s) fname = set_status n (add_path cfg st s fname).
Proof.
  unfold add_path, set_status. cbn [files files_dict status].
  destruct (bool_decide (fname ∉ files_dict s) && is_relevant cfg st fname
            && os_isfile st fname); reflexivity.
Qed.

Lemma fold_add_path_set_status (cfg : config) (st : os_state) (n : Z)
    (paths : list string) (s : parse_state) :
  fold_left (add_path cfg st) paths (set_status n s)
  = set_status n (fold_left (add_path cfg st) paths s).
Proof.
  revert s. induction paths as [|x paths IH]; intros s; [reflexivity|].
  cbn [fold_left]. rewrite add_path_set_status. apply IH.
Qed.

Lemma add_path_status (cfg : config) (st : os_state) (s : parse_state) (fname : string) :
  status (add_path cfg st s fname) = status s.
Proof.
  unfold add_path.
  destruct (bool_decide (fname ∉ files_dict s) && is_relevant cfg st fname
            && os_isfile st fname); reflexivity.
Qed.

Lemma fold_add_path_status (cfg : config) (st : os_state) (paths : list string)
    (s : parse_state) :
  status (fold_left (add_path cfg st) paths s) = status s.
Proof.
  revert s. induction paths as [|x paths IH]; intros s; [reflexivity|].
  cbn [fold_left]. rewrite IH. apply add_path_status.
Qed.

Lemma fold_path_step (cfg : config) (st : os_state) (line : string) (rs : list regex)
    (s : parse_state) :
  fold_left (path_step cfg st line) rs s
  = fold_left (add_path cfg st) (omap (fun r => normpath <$> re_match r line) rs) s.
Proof.
  revert s. induction rs as [|r rs IH]; intros s; [reflexivity|].
  cbn [fold_left omap list_omap]. rewrite IH. unfold path_step.
  destruct (re_match r line); reflexivity.
Qed.

(** The inner loop on a line that is no exit event. *)
Lemma for_each_regex_plain (cfg : config) (st : os_state) (line : string)
    (rs : list regex) (s : parse_state) :
  re_match re_exit_group line = None ->
  for_each (regex_step cfg st line) rs s = Ok (fold_left (path_step cfg st line) rs s).
Proof.
  intros Hno. revert s. induction rs as [|r rs IH]; intros s; [reflexivity|].
  cbn [for_each fold_left]. rewrite regex_step_unfold, Hno. cbn [mbind result_bind].
  apply IH.
Qed.

(** The inner loop on an exit event with an integer. *)
Lemma for_each_regex_exit (cfg : config) (st : os_state) (line g : string) (n : Z)
    (rs : list regex) (s : parse_state) :
  re_match re_exit_group line = Some g -> py_int g = Some n -> rs <> [] ->
  for_each (regex_step cfg st line) rs s
  = Ok (set_status n (fold_left (path_step cfg st line) rs s)).
Proof.
  intros Hg Hn. revert s. induction rs as [|r rs IH]; intros s Hne; [congruence|].
  cbn [for_each fold_left]. rewrite regex_step_unfold, Hg, Hn. cbn [mbind result_bind].
  destruct rs as [|r' rs]; [reflexivity|].
  rewrite IH by discriminate. f_equal.
  rewrite !fold_path_step, fold_add_path_set_status. reflexivity.
Qed.

(** The inner loop on an exit event without an integer. *)
Lemma for_each_regex_bad_exit (cfg : config) (st : os_state) (line g : string)
    (rs : list regex) (s : parse_state) :
  re_match re_exit_group line = Some g -> py_int g = None -> rs <> [] ->
  for_each (regex_step cfg st line) rs s = Raise ValueError.
Proof.
  intros Hg Hn Hne. destruct rs as [|r rs]; [congruence|].
  cbn [for_each]. rewrite regex_step_unfold, Hg, Hn. reflexivity.
Qed.

Lemma line_step_unfold (cfg : config) (st : os_state) (s : parse_state) (line : string) :
  line_step cfg st s line =
  let s1 := fold_left (add_path cfg st) (line_paths line) s in
  match re_match re_exit_group line with
  | Some g =>
      match py_int g with
      | Some n => Ok (set_status n s1)
      | None => Raise ValueError
      end
  | None => Ok s1
  end.
Proof.
  unfold line_step, line_paths. cbv zeta. rewrite <- fold_path_step.
  destruct (re_match re_exit_group line) as [g|] eqn:Hg.
  - destruct (py_int g) as [n|] eqn:Hn.
    + apply (for_each_regex_exit _ _ _ g); [assumption | assumption | discriminate].
    + apply (for_each_regex_bad_exit _ _ _ g); [assumption | assumption | discriminate].
  - apply for_each_regex_plain. assumption.
Qed.

(** The outer loop, from any state. *)
Lemma for_each_line (cfg : config) (st : os_state) (lines : list string) (s : parse_state) :
  for_each (line_step cfg st) lines s =
  match mapM py_int (exit_texts lines) with
  | Some codes =>
      Ok (set_status (last_code (status s) codes)
                     (fold_left (add_path cfg st) (candidates lines) s))
  | None => Raise ValueError
  end.
Proof.
  revert s. induction lines as [|line lines IH]; intros s.
  - destruct s; reflexivity.
  - cbn [for_each]. rewrite line_step_unfold. cbv zeta.
    unfold candidates, exit_texts. rewrite bind_cons, fold_left_app. cbn [omap list_omap].
    fold (candidates lines). fold (exit_texts lines).
    destruct (re_match re_exit_group line) as [g|] eqn:Hg.
    + cbn [mapM]. destruct (py_int g) as [n|] eqn:Hn; [|reflexivity].
      cbn [mbind result_bind option_bind]. rewrite IH.
      destruct (mapM py_int (exit_texts lines)) as [codes|]; [|reflexivity].
      cbn [mbind option_bind mret option_ret]. f_equal.
      rewrite fold_add_path_set_status. unfold set_status. cbn [status files files_dict].
      reflexivity.
    + cbn [mbind result_bind]. rewrite IH.
      destruct (mapM py_int (exit_texts lines)) as [codes|]; [|reflexivity].
      rewrite fold_add_path_status. reflexivity.
Qed.

Lemma add_path_unfold (cfg : config) (st : os_state) (s : parse_state) (x : string) :
  add_path cfg st s x =
  if bool_decide (x ∉ files_dict s) && accept cfg st x
  then ParseState (status s) (files s ++ [record_of st x]) ({[x]} ∪ files_dict s)
  else s.
Proof. unfold add_path, accept. rewrite andb_assoc. reflexivity. Qed.

Lemma fold_add_path_files (cfg : config) (st : os_state) (paths : list string)
    (s : parse_state) :
  files (fold_left (add_path cfg st) paths s)
  = (files s ++ (record_of st <$>
                 filter (fun y => y ∉ files_dict s)
                        (first_seen (filter (fun path => accept cfg st path = true) paths))))%list.
Proof.
  revert s. induction paths as [|x paths IH]; intros s.
  - cbn. rewrite app_nil_r. reflexivity.
  - cbn [fold_left]. rewrite IH, add_path_unfold, filter_cons.
    destruct (accept cfg st x) eqn:Hacc.
    + destruct (decide (true = true)) as [_|Hx]; [|congruence].
      cbn [first_seen]. rewrite filter_cons.
      destruct (bool_decide_reflect (x ∉ files_dict s)) as [Hfresh|Hseen]; cbn [andb].
      * cbn [files files_dict]. destruct (decide (x ∉ files_dict s)); [|contradiction].
        rewrite fmap_cons, <- app_assoc. cbn [app]. do 3 f_equal.
        rewrite list_filter_filter. apply list_filter_iff. intros y.
        rewrite elem_of_union, elem_of_singleton. tauto.
      * destruct (decide (x ∉ files_dict s)); [contradiction|].
        do 2 f_equal. rewrite list_filter_filter. apply list_filter_iff. intros y.
        apply dec_stable in Hseen. split; [|tauto]. intros Hy. split; [exact Hy|].
        intros ->. contradiction.
    + rewrite andb_false_r. destruct (decide (false = true)); [discriminate | reflexivity].
Qed.

(** What [parse_trace] computes, for every trace. *)
Lemma parse_trace_spec (cfg : config) (st : os_state) (lines : list string) :
  parse_trace cfg st lines =
  match mapM py_int (exit_texts lines) with
  | Some codes =>
      Ok (last_code 0%Z codes, record_of st <$> dependency_paths cfg st lines)
  | None => Raise ValueError
  end.
Proof.
  unfold parse_trace. rewrite for_each_line.
  destruct (mapM py_int (exit_texts lines)) as [codes|]; [|reflexivity].
  cbn [mbind result_bind set_status status files]. rewrite fold_add_path_files.
  cbn [files files_dict app]. unfold dependency_paths. do 3 f_equal.
  apply filter_always. intros y. apply not_elem_of_empty.
Qed.

(** What [generate_deps] computes once the trace was read back. *)
Lemma generate_deps_spec (cfg : config) (cmd : string) (p : proc) (st1 : os_state)
    (lines : list string) :
  strace (os p) cmd = (st1, Some lines) ->
  generate_deps cfg cmd p =
  match mapM py_int (exit_texts lines) with
  | Some codes =>
      Ok (last_code 0%Z codes, record_of st1 <$> dependency_paths cfg st1 lines,
          Proc st1 (stdout p) (spawned p ++ [cmd]))
  | None => Raise ValueError
  end.
Proof.
  intros Hrun. unfold generate_deps. rewrite Hrun, parse_trace_spec.
  destruct (mapM py_int (exit_texts lines)); reflexivity.
Qed.

End Trace.

Lemma dependency_paths_elem (cfg : config) (st : os_state) (lines : list string)
    (path : string) :
  path ∈ dependency_paths cfg st lines <->
  accept cfg st path = true
  /\ exists line r text,
      line ∈ lines /\ r ∈ regexes /\ re_match r line = Some text /\ path = normpath text.
Proof.
  unfold dependency_paths, candidates, line_paths.
  rewrite first_seen_elem, list_elem_of_filter, list_elem_of_bind.
  split.
  - intros (Hacc & line & Hpath & Hline). split; [exact Hacc|].
    apply list_elem_of_omap in Hpath as (r & Hr & Hm).
    destruct (re_match r line) as [text|] eqn:E; [|discriminate].
    cbn in Hm. inversion Hm; subst. exists line, r, text. auto.
  - intros (Hacc & line & r & text & Hline & Hr & Hm & ->). split; [exact Hacc|].
    exists line. split; [|exact Hline]. apply list_elem_of_omap.
    exists r. split; [exact Hr|]. rewrite Hm. reflexivity.
Qed.

Section TraceProperties.
Context `{Ext : Externals}.

(** X2. When the text of every exit event of a trace is an integer,
    [parse_trace] returns the integer of the last one, whatever the path
    patterns match on those lines, and 0 when the trace has no exit
    event. *)
Theorem exit_status_is_last_exit_event (cfg : config) (st : os_state)
    (lines : list string) (codes : list Z) :
  mapM py_int (exit_texts lines) = Some codes ->
  (exists files, parse_trace cfg st lines = Ok (last_code 0%Z codes, files))
  /\ (exit_texts lines = [] -> exists files, parse_trace cfg st lines = Ok (0%Z, files))
  /\ (forall line code,
        re_match re_exit_group line = Some code ->
        forall n, py_int code = Some n ->
        exists files, parse_trace cfg st (lines ++ [line]) = Ok (n, files)).
Proof.
  intros Hcodes. split; [|split].
  - rewrite parse_trace_spec, Hcodes. eauto.
  - intros Hnone. rewrite parse_trace_spec, Hnone. cbn. eauto.
  - intros line code Hline n Hn. rewrite parse_trace_spec.
    assert (Hmap : mapM py_int (exit_texts (lines ++ [line])) = Some (codes ++ [n])%list).
    { unfold exit_texts in *. rewrite omap_app. cbn [omap list_omap]. rewrite Hline.
      apply mapM_Some. apply Forall2_app; [apply mapM_Some, Hcodes|].
      constructor; [exact Hn | constructor]. }
    rewrite Hmap. eexists. f_equal. f_equal.
    clear. generalize 0%Z. induction codes as [|c codes IH]; intros d; [reflexivity|].
    cbn. apply IH.
Qed.

(** C6 (amended). For every trace, [parse_trace] tries every pattern of
    the list (open, stat64, rename destination, stat, openat at the
    working directory) on every line, and every pattern that matches
    contributes the normalized text of its group, not the first one only.
    Of these paths it keeps the relevant regular files and records each
    once, where it was first seen.  A trace with an exit event whose text
    is no integer raises instead. *)
Theorem dependency_list_is_first_seen (cfg : config) (st : os_state) (lines : list string) :
  parse_trace cfg st lines =
    match mapM py_int (exit_texts lines) with
    | Some codes =>
        Ok (last_code 0%Z codes, record_of st <$> dependency_paths cfg st lines)
    | None => Raise ValueError
    end
  /\ NoDup (dependency_paths cfg st lines)
  /\ (forall path,
        path ∈ dependency_paths cfg st lines <->
        accept cfg st path = true
        /\ exists line r text,
            line ∈ lines /\ r ∈ regexes /\ re_match r line = Some text
            /\ path = normpath text)
  /\ (forall lines1 lines2,
        dependency_paths cfg st (lines1 ++ lines2) =
        (dependency_paths cfg st lines1
         ++ filter (fun y => y ∉ dependency_paths cfg st lines1)
                   (dependency_paths cfg st lines2))%list).
Proof.
  split; [apply parse_trace_spec|]. split; [apply first_seen_NoDup|]. split.
  - apply dependency_paths_elem.
  - intros lines1 lines2. unfold dependency_paths, candidates.
    rewrite bind_app, list.filter_app, first_seen_app. f_equal.
    apply list_filter_iff. intros y. rewrite first_seen_elem. reflexivity.
Qed.

(** C9 (amended). The path of every record that [generate_deps] returns
    is normalized: it is the [normpath] of the text a pattern matched on
    a trace line, and [normpath] leaves it unchanged.  It is absolute
    exactly when that text was; a file the command named by a relative
    path is recorded under the relative path.  What makes it relevant is
    its absolute form, which [is_relevant] computes and does not store. *)
Theorem recorded_paths_are_normalized (cfg : config) (cmd : string) (p : proc)
    (st1 : os_state) (lines : list string) (codes : list Z) :
  strace (os p) cmd = (st1, Some lines) ->
  mapM py_int (exit_texts lines) = Some codes ->
  exists files p1,
    generate_deps cfg cmd p = Ok (last_code 0%Z codes, files, p1)
    /\ forall r, r ∈ files ->
        normpath (fr_path r) = fr_path r
        /\ (exists line rx text,
              line ∈ lines /\ rx ∈ regexes /\ re_match rx line = Some text
              /\ fr_path r = normpath text /\ isabs (fr_path r) = isabs text)
        /\ is_relevant cfg st1 (fr_path r) = true
        /\ os_isfile st1 (fr_path r) = true.
Proof.
  intros Hrun Hcodes. rewrite (generate_deps_spec cfg cmd p st1 lines Hrun), Hcodes.
  eexists _, _. split; [reflexivity|]. intros r Hr.
  apply list_elem_of_fmap in Hr as (path & -> & Hpath).
  apply dependency_paths_elem in Hpath
    as (Hacc & line & rx & text & Hline & Hrx & Hm & ->).
  unfold accept in Hacc. apply andb_true_iff in Hacc as [Hrel Hfile].
  cbn [record_of fr_path fst]. split; [apply normpath_fixed|].
  split; [|split; assumption].
  exists line, rx, text. split; [exact Hline|]. split; [exact Hrx|]. split; [exact Hm|].
  split; [reflexivity | apply isabs_normpath].
Qed.

End TraceProperties.

Lemma exit_status_is_last_exit_event_witness :
  exists files,
    parse_trace (Ext := replay []) demo_cfg demo_os (failing_lines ++ [exit0_line])
    = Ok (0%Z, files).
Proof.
  destruct (exit_status_is_last_exit_event (Ext := replay []) demo_cfg demo_os
              (failing_lines ++ [exit0_line]) [2%Z; 0%Z]) as (Hlast & _).
  - reflexivity.
  - exact Hlast.
Defined.

(** C5. The exit pattern is tried on every line and what it captures
    goes to [int] unguarded.  On a trace whose last exit event carries 0
    and in which an earlier line holds the text of an exit event inside
    a file name or an argument, the capture is no integer and the parser
    raises [ValueError] where it should return 0: the open of a file
    named [exit_group(1).txt], and the [execve] line of
    [grep 'exit_group(' f]. *)
Theorem exit_event_in_file_name_raises :
  list.last misleading_lines = Some exit0_line
  /\ list.last grep_lines = Some exit0_line
  /\ re_match re_exit_group exit0_line = Some "0"
  /\ py_int "0" = Some 0%Z
  /\ parse_trace (Ext := replay []) demo_cfg demo_os [exit0_line] = Ok (0%Z, [])
  /\ exit_texts misleading_lines = ["1).txt" +:+ dquote +:+ ", O_RDONLY"; "0"]
  /\ parse_trace (Ext := replay []) demo_cfg demo_os misleading_lines = Raise ValueError
  /\ generate_deps (Ext := replay misleading_lines) demo_cfg "cat 'exit_group(1).txt'"
                   demo_proc
     = Raise ValueError
  /\ parse_trace (Ext := replay []) demo_cfg demo_os grep_lines = Raise ValueError
  /\ generate_deps (Ext := replay grep_lines) demo_cfg "grep 'exit_group(' f" demo_proc
     = Raise ValueError.
Proof. repeat split; vm_compute; reflexivity. Qed.

(** C6, as stated, fails: on a line that two patterns match, both paths
    are recorded, where the first pattern alone would give one. *)
Lemma every_matching_pattern_contributes :
  line_paths two_pattern_line = ["a"; "b"]
  /\ line_paths_first_wins two_pattern_line = ["a"]
  /\ parse_trace (Ext := replay []) demo_cfg demo_os [two_pattern_line]
     = Ok (0%Z, [("a", Some "A", MTime 30); ("b", Some "B", MTime 40)]).
Proof. repeat split; vm_compute; reflexivity. Qed.

Lemma recorded_paths_are_normalized_witness :
  exists files p1,
    generate_deps (Ext := replay relative_lines) demo_cfg "cat out.txt" demo_proc
    = Ok (0%Z, files, p1)
    /\ forall r, r ∈ files -> normpath (fr_path r) = fr_path r.
Proof.
  destruct (recorded_paths_are_normalized (Ext := replay relative_lines) demo_cfg
              "cat out.txt" demo_proc demo_os relative_lines [0%Z])
    as (files & p1 & Hgen & Hall).
  - reflexivity.
  - reflexivity.
  - exists files, p1. split; [exact Hgen|]. intros r Hr. apply (Hall r Hr).
Defined.

(** C9, as stated, fails: a file the command opened by a relative name
    is recorded, and stored, under that relative name. *)
Lemma relative_path_is_recorded :
  generate_deps (Ext := replay relative_lines) demo_cfg "cat out.txt" demo_proc
  = Ok (0%Z, [("out.txt", Some "hello", MTime 10)], Proc demo_os [] ["cat out.txt"])
  /\ isabs "out.txt" = false
  /\ exists deps' p',
      memoize_with_deps (Ext := replay relative_lines) demo_cfg ".deps3" ∅
                        "cat out.txt" demo_proc
      = Ok (0%Z, deps', p')
      /\ deps' !! "cat out.txt" = Some [("out.txt", Some "hello", MTime 10)].
Proof.
  split; [vm_compute; reflexivity|]. split; [reflexivity|].
  eexists _, _. split; [vm_compute; reflexivity|]. vm_compute. reflexivity.
Qed.

Section Miss.
Context `{Ext : Externals}.

(** What the [if status == 0 ... elif cmd in deps] leaves in [deps]. *)
Lemma record_or_discard (deps : deps_map) (cmd : string) (files : list file_record)
    (status : Z) :
  (if (status =? 0)%Z then <[cmd := files]> deps
   else if bool_decide (is_Some (deps !! cmd)) then delete cmd deps else deps)
  = if (status =? 0)%Z then <[cmd := files]> deps else delete cmd deps.
Proof.
  destruct (status =? 0)%Z; [reflexivity|].
  destruct (bool_decide_reflect (is_Some (deps !! cmd))) as [_|Hno]; [reflexivity|].
  symmetry. apply delete_id. destruct (deps !! cmd) eqn:E; [|reflexivity].
  exfalso. apply Hno. eauto.
Qed.

(** C2 (amended). On a miss for which the trace of the run was read
    back, the text of every exit event is an integer, and the store path
    is one the process can open: with status 0 the entry of the command
    becomes the fresh record list, with any other status the command has
    no entry; no other entry changes; the resulting dictionary is what
    the store file holds and, given that [pickle.load] returns what
    [pickle.dump] was given, loads back to; the engine returns the
    status, and the command was run once. *)
Theorem miss_records_or_discards (cfg : config) (depsname : string) (deps : deps_map)
    (cmd : string) (p : proc) (st1 : os_state) (lines : list string) (codes : list Z) :
  pickle_roundtrip ->
  cache_hit cfg deps cmd p = false ->
  strace (os p) cmd = (st1, Some lines) ->
  mapM py_int (exit_texts lines) = Some codes ->
  store_openable st1 depsname = true ->
  let status := last_code 0%Z codes in
  let files := record_of st1 <$> dependency_paths cfg st1 lines in
  exists deps' p2,
    memoize_with_deps cfg depsname deps cmd p = Ok (status, deps', p2)
    /\ (status = 0%Z -> deps' = <[cmd := files]> deps /\ deps' !! cmd = Some files)
    /\ (status <> 0%Z -> deps' = delete cmd deps /\ deps' !! cmd = None)
    /\ (forall other, other <> cmd -> deps' !! other = deps !! other)
    /\ os_read (os p2) depsname = Some (pickle_dumps deps')
    /\ read_deps depsname p2 = Ok deps'
    /\ spawned p2 = (spawned p ++ [cmd])%list.
Proof.
  intros Hround Hmiss Hrun Hcodes Hopen status files.
  unfold memoize_with_deps. rewrite Hmiss. unfold run_and_record.
  rewrite (generate_deps_spec cfg cmd p st1 lines Hrun), Hcodes.
  cbn [mbind result_bind]. rewrite record_or_discard.
  fold status. fold files.
  set (deps' := if (status =? 0)%Z then <[cmd := files]> deps else delete cmd deps).
  destruct (write_then_read depsname deps' (Proc st1 (stdout p) (spawned p ++ [cmd]))
              Hround Hopen) as (p2 & Hwrite & Hread & Hbytes & _ & Hsp).
  rewrite Hwrite. exists deps', p2. split; [reflexivity|].
  split; [|split; [|split; [|split; [|split]]]].
  - intros E. unfold deps'. rewrite E. cbn. split; [reflexivity | apply lookup_insert_eq].
  - intros Hne. unfold deps'. apply Z.eqb_neq in Hne. rewrite Hne.
    split; [reflexivity | apply lookup_delete_eq].
  - intros other Hother. unfold deps'. destruct (status =? 0)%Z.
    + apply lookup_insert_ne. congruence.
    + apply lookup_delete_ne. congruence.
  - exact Hbytes.
  - exact Hread.
  - exact Hsp.
Qed.

End Miss.

Lemma miss_records_or_discards_witness :
  exists deps' p2,
    memoize_with_deps (Ext := replay failing_lines) demo_cfg ".deps3" demo_deps
                      "cat out.txt" (Proc changed_os [] [])
    = Ok (2%Z, deps', p2)
    /\ deps' !! "cat out.txt" = None
    /\ read_deps (Ext := replay failing_lines) ".deps3" p2 = Ok deps'.
Proof.
  destruct (miss_records_or_discards (Ext := replay failing_lines) demo_cfg ".deps3"
              demo_deps "cat out.txt" (Proc changed_os [] []) changed_os
              failing_lines [2%Z])
    as (deps' & p2 & Hrun & _ & Hfail & _ & _ & Hread & _).
  - apply scripted_pickle_roundtrip.
  - vm_compute. reflexivity.
  - reflexivity.
  - reflexivity.
  - reflexivity.
  - exists deps', p2. split; [exact Hrun|]. split; [|exact Hread].
    apply Hfail. discriminate.
Defined.

(** C2, as stated, fails: on a miss with a store path that cannot be
    opened for writing the command is run, and then [write_deps] raises:
    nothing is persisted and no exit code is returned.  The same holds
    when the text of an exit event is no integer. *)
Lemma miss_with_unwritable_store_raises :
  cache_hit (Ext := replay [exit0_line]) demo_cfg ∅ "true" demo_proc = false
  /\ generate_deps (Ext := replay [exit0_line]) demo_cfg "true" demo_proc
     = Ok (0%Z, [], Proc demo_os [] ["true"])
  /\ os_write demo_os "secret" (pickle_dumps (Externals := replay [exit0_line]) {[ "true" := [] ]})
     = None
  /\ memoize_with_deps (Ext := replay [exit0_line]) demo_cfg "secret" ∅ "true" demo_proc
     = Raise OSError
  /\ cache_hit (Ext := replay misleading_lines) demo_cfg ∅ "cat 'exit_group(1).txt'" demo_proc
     = false
  /\ memoize_with_deps (Ext := replay misleading_lines) demo_cfg ".deps3" ∅
                       "cat 'exit_group(1).txt'" demo_proc
     = Raise ValueError.
Proof. repeat split; vm_compute; reflexivity. Qed.

(** ** The [__main__] block *)

(** Without a command the script prints the error line and exits with 1,
    before it reads the store. *)
Lemma main_without_command `{Externals} (args : Namespace) (p : proc) :
  command args = [] ->
  main args p = Ok (1%Z, print "Error: A command to memoize is required" p).
Proof. intros Hcmd. unfold main. rewrite Hcmd. reflexivity. Qed.

(** * Further properties of the script *)

(** ** What the fingerprints read *)

Section FingerprintFrame.
Context `{Ext : Externals}.

Lemma hash_file_same_content (st st' : os_state) (fname : string) :
  os_read st fname = os_read st' fname -> hash_file st fname = hash_file st' fname.
Proof. intros Hsame. rewrite !hash_file_unfold, Hsame. reflexivity. Qed.

Lemma modtime_same_time (st st' : os_state) (fname : string) :
  os_getmtime st fname = os_getmtime st' fname -> modtime st fname = modtime st' fname.
Proof. intros Hsame. unfold modtime. rewrite Hsame. reflexivity. Qed.

Lemma os_read_same_node (st st' : os_state) (path : string) :
  os_lookup st path = os_lookup st' path -> os_read st path = os_read st' path.
Proof. intros Hsame. unfold os_read. rewrite Hsame. reflexivity. Qed.

Lemma os_getmtime_same_node (st st' : os_state) (path : string) :
  os_lookup st path = os_lookup st' path -> os_getmtime st path = os_getmtime st' path.
Proof. intros Hsame. unfold os_getmtime. rewrite Hsame. reflexivity. Qed.

Lemma fingerprint_matches_same (cfg : config) (st st' : os_state) (r : file_record) :
  (opt_use_modtime cfg = false -> os_read st (fr_path r) = os_read st' (fr_path r)) ->
  (opt_use_modtime cfg = true ->
   os_getmtime st (fr_path r) = os_getmtime st' (fr_path r)) ->
  fingerprint_matches cfg st r <-> fingerprint_matches cfg st' r.
Proof.
  intros Hhash Htime. unfold fingerprint_matches. destruct (opt_use_modtime cfg).
  - rewrite (modtime_same_time st st') by auto. reflexivity.
  - rewrite (hash_file_same_content st st') by auto. reflexivity.
Qed.

Lemma files_loop_same (cfg : config) (st st' : os_state) (files : list file_record) :
  (forall r, r ∈ files ->
     (opt_use_modtime cfg = false -> os_read st (fr_path r) = os_read st' (fr_path r))
     /\ (opt_use_modtime cfg = true ->
         os_getmtime st (fr_path r) = os_getmtime st' (fr_path r))) ->
  files_loop cfg st files = files_loop cfg st' files.
Proof.
  intros Hsame.
  destruct (files_loop cfg st files) eqn:E; symmetry.
  - apply files_loop_spec. apply files_loop_spec in E.
    rewrite List.Forall_forall in *. intros r Hr.
    destruct (Hsame r (proj2 (list_elem_of_In _ _) Hr)) as [Hh Ht].
    apply (fingerprint_matches_same cfg st st' r Hh Ht), E, Hr.
  - destruct (files_loop cfg st' files) eqn:E'; [|reflexivity].
    apply files_loop_spec in E'. rewrite <- E. symmetry. apply files_loop_spec.
    rewrite List.Forall_forall in *. intros r Hr.
    destruct (Hsame r (proj2 (list_elem_of_In _ _) Hr)) as [Hh Ht].
    apply (fingerprint_matches_same cfg st st' r Hh Ht), E', Hr.
Qed.

(** X1. The staleness check reads the fingerprint of the active mode and
    nothing else: in hash mode two file systems in which every recorded
    file reads the same give the same answer, whatever the modification
    times; in timestamp mode two file systems in which every recorded
    file has the same modification time do, whatever the contents. *)
Theorem check_reads_active_fingerprint_only (cfg : config) (st st' : os_state)
    (files : list file_record) :
  (opt_use_modtime cfg = false ->
   forall r, r ∈ files -> os_read st (fr_path r) = os_read st' (fr_path r)) ->
  (opt_use_modtime cfg = true ->
   forall r, r ∈ files -> os_getmtime st (fr_path r) = os_getmtime st' (fr_path r)) ->
  files_up_to_date cfg st (Some files) = files_up_to_date cfg st' (Some files).
Proof.
  intros Hhash Htime. cbn [files_up_to_date]. apply files_loop_same.
  intros r Hr. split; intros Hmode; auto.
Qed.

End FingerprintFrame.

Lemma check_reads_active_fingerprint_only_witness :
  files_up_to_date (Ext := replay []) demo_cfg demo_os
                   (Some [("out.txt", Some "hello", MTime 10)])
  = files_up_to_date (Ext := replay []) demo_cfg touched_os
                     (Some [("out.txt", Some "hello", MTime 10)]).
Proof.
  apply (check_reads_active_fingerprint_only (Ext := replay []) demo_cfg demo_os touched_os).
  - intros _ r Hr. apply list_elem_of_singleton in Hr. rewrite Hr. reflexivity.
  - intros Hmode. discriminate Hmode.
Defined.

(** ** What [write_deps] leaves *)

Section StoreFrame.
Context `{Ext : Externals}.

(** X3. The store file holds the last mapping written: after two saves
    to the same path, loading returns the second mapping, and nothing of
    the first remains. *)
Theorem last_write_deps_wins (depsname : string) (deps1 deps2 : deps_map) (p : proc) :
  pickle_roundtrip ->
  store_openable (os p) depsname = true ->
  exists p1 p2,
    write_deps depsname deps1 p = Ok p1
    /\ write_deps depsname deps2 p1 = Ok p2
    /\ read_deps depsname p2 = Ok deps2.
Proof.
  intros Hround Hopen.
  rewrite (write_deps_openable _ _ _ Hopen). eexists. eexists. split; [reflexivity|].
  rewrite write_deps_openable by (cbn [os]; apply store_openable_after_write, Hopen).
  split; [reflexivity|].
  rewrite read_deps_unfold. cbn [os].
  rewrite os_read_after_write by (apply store_openable_after_write, Hopen).
  rewrite Hround. reflexivity.
Qed.

End StoreFrame.

Lemma last_write_deps_wins_witness :
  exists p1 p2,
    write_deps (Ext := replay []) ".deps3" demo_deps demo_proc = Ok p1
    /\ write_deps (Ext := replay []) ".deps3" demo_deps2 p1 = Ok p2
    /\ read_deps (Ext := replay []) ".deps3" p2 = Ok demo_deps2.
Proof.
  apply (last_write_deps_wins (Ext := replay []) ".deps3" demo_deps demo_deps2 demo_proc).
  - apply scripted_pickle_roundtrip.
  - reflexivity.
Defined.

(** ** Running the same command again *)

Section Rerun.
Context `{Ext : Externals}.

(** What a miss returns, in full. *)
Lemma memoize_miss_result (cfg : config) (depsname : string) (deps : deps_map)
    (cmd : string) (p : proc) (st1 : os_state) (lines : list string) (codes : list Z) :
  cache_hit cfg deps cmd p = false ->
  strace (os p) cmd = (st1, Some lines) ->
  mapM py_int (exit_texts lines) = Some codes ->
  store_openable st1 depsname = true ->
  let status := last_code 0%Z codes in
  let files := record_of st1 <$> dependency_paths cfg st1 lines in
  let deps' := if (status =? 0)%Z then <[cmd := files]> deps else delete cmd deps in
  memoize_with_deps cfg depsname deps cmd p
  = Ok (status, deps',
        Proc (after_write st1 depsname deps') (stdout p) (spawned p ++ [cmd])).
Proof.
  intros Hmiss Hrun Hcodes Hopen status files deps'.
  unfold memoize_with_deps. rewrite Hmiss. unfold run_and_record.
  rewrite (generate_deps_spec cfg cmd p st1 lines Hrun), Hcodes.
  cbn [mbind result_bind]. rewrite record_or_discard.
  fold status. fold files. fold deps'.
  rewrite write_deps_openable by exact Hopen. reflexivity.
Qed.

Lemma record_of_matches (cfg : config) (st : os_state) (path : string) :
  fingerprint_matches cfg st (record_of st path).
Proof. unfold fingerprint_matches, record_of. destruct (opt_use_modtime cfg); reflexivity. Qed.

Lemma fr_path_record_of (st : os_state) (path : string) : fr_path (record_of st path) = path.
Proof. reflexivity. Qed.

(** X4. The records [generate_deps] returns are fingerprinted after the
    traced run: each one matches the file system the run left, in either
    mode, so a check made at once on that file system finds them all up
    to date. *)
Theorem fresh_records_are_up_to_date (cfg : config) (cmd : string) (p : proc)
    (st1 : os_state) (lines : list string) (codes : list Z) :
  strace (os p) cmd = (st1, Some lines) ->
  mapM py_int (exit_texts lines) = Some codes ->
  exists files p1,
    generate_deps cfg cmd p = Ok (last_code 0%Z codes, files, p1)
    /\ os p1 = st1
    /\ Forall (fingerprint_matches cfg st1) files
    /\ files_up_to_date cfg st1 (Some files) = true.
Proof.
  intros Hrun Hcodes. rewrite (generate_deps_spec cfg cmd p st1 lines Hrun), Hcodes.
  eexists _, _. split; [reflexivity|]. split; [reflexivity|].
  assert (Hall : Forall (fingerprint_matches cfg st1)
                        (record_of st1 <$> dependency_paths cfg st1 lines)).
  { apply List.Forall_forall. intros r Hr. apply list_elem_of_In in Hr.
    apply list_elem_of_fmap in Hr as (path & -> & _). apply record_of_matches. }
  split; [exact Hall|]. cbn [files_up_to_date]. apply files_loop_spec, Hall.
Qed.

(** The records of a run still match once the store was written, when
    the store file is not one of them: they are records of regular
    files, which writing the store leaves as they were. *)
Lemma records_match_after_write (cfg : config) (st1 : os_state) (depsname : string)
    (deps' : deps_map) (paths : list string) :
  store_openable st1 depsname = true ->
  (forall path, path ∈ paths -> other_file st1 depsname path) ->
  (forall path, path ∈ paths -> os_isfile st1 path = true) ->
  Forall (fingerprint_matches cfg (after_write st1 depsname deps')) (record_of st1 <$> paths).
Proof.
  intros Hopen Hother Hfiles. apply List.Forall_forall. intros r Hr. apply list_elem_of_In in Hr.
  apply list_elem_of_fmap in Hr as (path & -> & Hpath).
  assert (Hnode : os_lookup (after_write st1 depsname deps') path = os_lookup st1 path).
  { apply os_lookup_after_write; [exact Hopen | apply Hother, Hpath |].
    specialize (Hfiles path Hpath). unfold os_isfile in Hfiles. unfold names_file.
    destruct (os_lookup st1 path) as [[r w d t|? ?]|]; try discriminate. eauto. }
  apply (fingerprint_matches_same cfg (after_write st1 depsname deps') st1).
  - intros _. apply os_read_same_node. exact Hnode.
  - intros _. apply os_getmtime_same_node. exact Hnode.
  - apply record_of_matches.
Qed.

(** X5. Running the same unchanged command twice: when a miss ends with
    status 0 and recorded at least one file, and the store file is not
    itself one of the recorded files, the next call, on the state the
    first one left and with the mapping it left or loaded from the store,
    is a hit: it returns 0, keeps the mapping, and spawns nothing. *)
Theorem second_run_is_a_hit (cfg : config) (depsname : string) (deps : deps_map)
    (cmd : string) (p : proc) (st1 : os_state) (lines : list string) (codes : list Z) :
  pickle_roundtrip ->
  cache_hit cfg deps cmd p = false ->
  strace (os p) cmd = (st1, Some lines) ->
  mapM py_int (exit_texts lines) = Some codes ->
  last_code 0%Z codes = 0%Z ->
  dependency_paths cfg st1 lines <> [] ->
  store_openable st1 depsname = true ->
  (forall path, path ∈ dependency_paths cfg st1 lines -> other_file st1 depsname path) ->
  exists deps' p2,
    memoize_with_deps cfg depsname deps cmd p = Ok (0%Z, deps', p2)
    /\ read_deps depsname p2 = Ok deps'
    /\ memoize_with_deps cfg depsname deps' cmd p2
       = Ok (0%Z, deps', print ("MEMOIZE: Up to date: " +:+ cmd) p2)
    /\ spawned (print ("MEMOIZE: Up to date: " +:+ cmd) p2) = (spawned p ++ [cmd])%list.
Proof.
  intros Hround Hmiss Hrun Hcodes Hzero Hsome Hopen Hother.
  rewrite (memoize_miss_result cfg depsname deps cmd p st1 lines codes Hmiss Hrun Hcodes Hopen).
  cbv zeta. rewrite Hzero. cbn [Z.eqb].
  set (files := record_of st1 <$> dependency_paths cfg st1 lines).
  set (deps' := <[cmd := files]> deps).
  set (p2 := Proc (after_write st1 depsname deps') (stdout p) (spawned p ++ [cmd])).
  exists deps', p2. split; [reflexivity|]. split.
  - rewrite read_deps_unfold. unfold p2. cbn [os].
    rewrite (os_read_after_write _ _ _ Hopen), Hround. reflexivity.
  - split; [|reflexivity].
    assert (Hhit : cache_hit cfg deps' cmd p2 = true).
    { apply cache_hit_spec. exists files. split; [apply lookup_insert_eq|]. split.
      - unfold files. destruct (dependency_paths cfg st1 lines); [congruence | discriminate].
      - apply records_match_after_write; [exact Hopen | exact Hother |].
        intros path Hpath. apply dependency_paths_elem in Hpath as (Hacc & _).
        unfold accept in Hacc. apply andb_true_iff in Hacc as [_ Hfile]. exact Hfile. }
    unfold memoize_with_deps. rewrite Hhit. reflexivity.
Qed.

End Rerun.

Lemma fresh_records_are_up_to_date_witness :
  exists files p1,
    generate_deps (Ext := replay relative_lines) demo_cfg "cat out.txt" demo_proc
    = Ok (0%Z, files, p1)
    /\ files_up_to_date (Ext := replay relative_lines) demo_cfg demo_os (Some files) = true.
Proof.
  destruct (fresh_records_are_up_to_date (Ext := replay relative_lines) demo_cfg
              "cat out.txt" demo_proc demo_os relative_lines [0%Z])
    as (files & p1 & Hgen & _ & _ & Hup).
  - reflexivity.
  - reflexivity.
  - exists files, p1. split; [exact Hgen | exact Hup].
Defined.

Lemma second_run_is_a_hit_witness :
  exists deps' p2,
    memoize_with_deps (Ext := replay relative_lines) demo_cfg ".deps3" ∅ "cat out.txt"
                      demo_proc
    = Ok (0%Z, deps', p2)
    /\ memoize_with_deps (Ext := replay relative_lines) demo_cfg ".deps3" deps'
                         "cat out.txt" p2
       = Ok (0%Z, deps', print "MEMOIZE: Up to date: cat out.txt" p2).
Proof.
  destruct (second_run_is_a_hit (Ext := replay relative_lines) demo_cfg ".deps3" ∅
              "cat out.txt" demo_proc demo_os relative_lines [0%Z])
    as (deps' & p2 & Hfirst & _ & Hsecond & _).
  - apply scripted_pickle_roundtrip.
  - reflexivity.
  - reflexivity.
  - reflexivity.
  - reflexivity.
  - vm_compute. discriminate.
  - reflexivity.
  - intros path Hpath. vm_compute in Hpath. apply list_elem_of_singleton in Hpath.
    rewrite Hpath. unfold other_file. vm_compute. discriminate.
  - exists deps', p2. split; [exact Hfirst | exact Hsecond].
Defined.

Section NoHit.
Context `{Ext : Externals}.

(** X14. What a miss leaves is not always a hit the next time.  When
    the traced command failed, or when it succeeded and touched no
    relevant regular file (its entry is then the empty list), the next
    call for the same command is a miss again, whatever the state of the
    file system then is: such a command is run every time. *)
Theorem failed_or_empty_run_is_never_a_hit (cfg : config) (depsname : string)
    (deps : deps_map) (cmd : string) (p : proc) (st1 : os_state) (lines : list string)
    (codes : list Z) :
  cache_hit cfg deps cmd p = false ->
  strace (os p) cmd = (st1, Some lines) ->
  mapM py_int (exit_texts lines) = Some codes ->
  store_openable st1 depsname = true ->
  last_code 0%Z codes <> 0%Z \/ dependency_paths cfg st1 lines = [] ->
  exists deps' p2,
    memoize_with_deps cfg depsname deps cmd p = Ok (last_code 0%Z codes, deps', p2)
    /\ (deps' !! cmd = None \/ deps' !! cmd = Some [])
    /\ forall p3, cache_hit cfg deps' cmd p3 = false.
Proof.
  intros Hmiss Hrun Hcodes Hopen Hwhy.
  rewrite (memoize_miss_result cfg depsname deps cmd p st1 lines codes Hmiss Hrun Hcodes Hopen).
  cbv zeta. eexists _, _. split; [reflexivity|].
  assert (Hentry :
    (if (last_code 0%Z codes =? 0)%Z
     then <[cmd := record_of st1 <$> dependency_paths cfg st1 lines]> deps
     else delete cmd deps) !! cmd = None
    \/ (if (last_code 0%Z codes =? 0)%Z
        then <[cmd := record_of st1 <$> dependency_paths cfg st1 lines]> deps
        else delete cmd deps) !! cmd = Some []).
  { destruct (Z.eqb_spec (last_code 0%Z codes) 0) as [Hz|Hnz].
    - destruct Hwhy as [Hnz|Hempty]; [contradiction|].
      right. rewrite Hempty. apply lookup_insert_eq.
    - left. apply lookup_delete_eq. }
  split; [exact Hentry|]. intros p3. unfold cache_hit.
  destruct Hentry as [-> | ->]; reflexivity.
Qed.

End NoHit.

Lemma failed_or_empty_run_is_never_a_hit_witness :
  exists deps' p2,
    memoize_with_deps (Ext := replay [exit0_line]) demo_cfg ".deps3" ∅ "true" demo_proc
    = Ok (0%Z, deps', p2)
    /\ cache_hit (Ext := replay [exit0_line]) demo_cfg deps' "true" p2 = false.
Proof.
  destruct (failed_or_empty_run_is_never_a_hit (Ext := replay [exit0_line]) demo_cfg
              ".deps3" ∅ "true" demo_proc demo_os [exit0_line] [0%Z])
    as (deps' & p2 & Hrun & _ & Hnever).
  - reflexivity.
  - reflexivity.
  - reflexivity.
  - reflexivity.
  - right. reflexivity.
  - exists deps', p2. split; [exact Hrun | apply Hnever].
Defined.

(** ** Lines of the trace that no pattern matches *)

Section TraceMore.
Context `{Ext : Externals}.

Lemma line_paths_unmatched (line : string) :
  (forall r, r ∈ regexes -> re_match r line = None) -> line_paths line = [].
Proof.
  intros Hno. unfold line_paths.
  assert (Hall : forall rs, (forall r, r ∈ rs -> re_match r line = None) ->
                            omap (fun r => normpath <$> re_match r line) rs = []).
  { induction rs as [|r rs IH]; intros Hrs; [reflexivity|].
    cbn [omap list_omap]. rewrite (Hrs r) by constructor. cbn.
    apply IH. intros r' Hr'. apply Hrs. constructor. exact Hr'. }
  apply Hall, Hno.
Qed.

Lemma candidates_unmatched (junk : list string) :
  (forall line, line ∈ junk -> forall r, r ∈ regexes -> re_match r line = None) ->
  candidates junk = [].
Proof.
  induction junk as [|line junk IH]; intros Hno; [reflexivity|].
  unfold candidates. rewrite bind_cons. fold (candidates junk).
  rewrite line_paths_unmatched by (apply Hno; constructor).
  rewrite IH; [reflexivity|]. intros l Hl. apply Hno. constructor. exact Hl.
Qed.

Lemma exit_texts_unmatched (junk : list string) :
  (forall line, line ∈ junk -> re_match re_exit_group line = None) -> exit_texts junk = [].
Proof.
  induction junk as [|line junk IH]; intros Hno; [reflexivity|].
  unfold exit_texts. cbn [omap list_omap]. rewrite (Hno line) by constructor.
  apply IH. intros l Hl. apply Hno. constructor. exact Hl.
Qed.

(** X6. Lines that none of the five path patterns and not the exit
    pattern match, wherever they stand in the trace, change nothing:
    the parser returns the same status and the same records, or raises
    the same error, as on the trace without them. *)
Theorem unmatched_lines_are_ignored (cfg : config) (st : os_state)
    (before junk after : list string) :
  (forall line, line ∈ junk ->
     re_match re_exit_group line = None
     /\ forall r, r ∈ regexes -> re_match r line = None) ->
  parse_trace cfg st (before ++ junk ++ after) = parse_trace cfg st (before ++ after).
Proof.
  intros Hjunk. rewrite !parse_trace_spec.
  assert (Hexit : exit_texts (before ++ junk ++ after) = exit_texts (before ++ after)).
  { unfold exit_texts. rewrite !omap_app. fold (exit_texts junk).
    rewrite (exit_texts_unmatched junk) by (intros l Hl; exact (proj1 (Hjunk l Hl))).
    reflexivity. }
  assert (Hcand : candidates (before ++ junk ++ after) = candidates (before ++ after)).
  { unfold candidates. rewrite !bind_app. fold (candidates junk).
    rewrite (candidates_unmatched junk) by (intros l Hl; exact (proj2 (Hjunk l Hl))).
    reflexivity. }
  unfold dependency_paths. rewrite Hexit, Hcand. reflexivity.
Qed.

End TraceMore.

Lemma unmatched_lines_are_ignored_witness :
  parse_trace (Ext := replay []) demo_cfg demo_os
              ([access_line] ++ [access_line; access_line] ++ relative_lines)
  = parse_trace (Ext := replay []) demo_cfg demo_os ([access_line] ++ relative_lines).
Proof.
  apply (unmatched_lines_are_ignored (Ext := replay []) demo_cfg demo_os
           [access_line] [access_line; access_line] relative_lines).
  intros line Hline.
  assert (Hl : line = access_line).
  { apply elem_of_cons in Hline as [E|Hline]; [exact E|].
    apply list_elem_of_singleton in Hline. exact Hline. }
  rewrite Hl. split; [reflexivity|].
  intros r Hr. unfold regexes in Hr.
  repeat (apply elem_of_cons in Hr as [E|Hr]; [rewrite E; reflexivity|]).
  apply elem_of_nil in Hr. contradiction.
Defined.

(** ** The relevance filter and its roots *)

(** X7. More include roots never make a relevant path irrelevant, and
    more exclude roots never make an irrelevant path relevant: a path
    relevant under one configuration is relevant under every
    configuration with at least its include roots and at most its
    exclude roots. *)
Theorem relevance_grows_with_include_roots (cfg cfg' : config) (st : os_state)
    (fname : string) :
  (forall d, d ∈ opt_dirs cfg -> d ∈ opt_dirs cfg') ->
  (forall d, d ∈ ignore_list cfg' -> d ∈ ignore_list cfg) ->
  is_relevant cfg st fname = true ->
  is_relevant cfg' st fname = true.
Proof.
  intros Hin Hex. rewrite !is_relevant_unfold, !andb_true_iff, !negb_true_iff.
  intros [Hnot Hyes]. split.
  - destruct (any_prefix st (abspath (cwd st) fname) (ignore_list cfg')) eqn:E;
      [|reflexivity].
    apply any_prefix_spec in E as (d & Hd & Hp).
    assert (Hcontra : any_prefix st (abspath (cwd st) fname) (ignore_list cfg) = true).
    { apply any_prefix_spec. exists d. split; [apply Hex, Hd | exact Hp]. }
    congruence.
  - apply any_prefix_spec in Hyes as (d & Hd & Hp).
    apply any_prefix_spec. exists d. split; [apply Hin, Hd | exact Hp].
Qed.

Lemma relevance_grows_with_include_roots_witness :
  is_relevant (Config false ["."; "/usr/include"] None) demo_os "src/x.c" = true.
Proof.
  apply (relevance_grows_with_include_roots build_cfg
           (Config false ["."; "/usr/include"] None) demo_os "src/x.c").
  - intros d Hd. apply list_elem_of_singleton in Hd. rewrite Hd. constructor.
  - intros d Hd. apply elem_of_nil in Hd. contradiction.
  - reflexivity.
Defined.

(** ** [hash_file] reads the whole file *)

(** X8. [hash_file] feeds the file to the hash object block by block
    until a read returns nothing.  With a hash object for which feeding
    two blocks is feeding their concatenation, the digest returned is
    the digest of the whole content, whatever its length; an empty file
    gives the digest of the fresh hash object. *)
Theorem hash_file_hashes_whole_content `{Ext : Externals} (st : os_state)
    (fname data : string) :
  (forall h a b, update (update h a) b = update h (a +:+ b)) ->
  os_read st fname = Some data ->
  hash_file st fname
  = Some (hexdigest (match data with
                     | EmptyString => sha256
                     | _ => update sha256 data
                     end)).
Proof.
  intros Hcomp Hread. rewrite hash_file_unfold, Hread.
  destruct (read_block blocksize data) as [buf stream] eqn:Hr.
  pose proof (read_block_length _ _ _ _ Hr) as Hlen.
  pose proof (read_block_append _ _ _ _ Hr) as Happ.
  pose proof (read_block_empty _ _ _ _ blocksize_pos Hr) as Hempty.
  rewrite (hash_loop_whole _ Hcomp); [| lia | intros E; apply Hempty, E].
  rewrite Happ. do 2 f_equal.
  destruct buf as [|c buf].
  - destruct (Hempty eq_refl) as [-> _]. reflexivity.
  - destruct data as [|d data]; [discriminate Happ | reflexivity].
Qed.

Lemma hash_file_hashes_whole_content_witness :
  hash_file (Ext := replay []) demo_os "out.txt" = Some "hello".
Proof.
  apply (hash_file_hashes_whole_content (Ext := replay []) demo_os "out.txt" "hello").
  - intros h a b. cbn [update replay scripted]. clear.
    induction h as [|c h IH]; [reflexivity|]. rewrite !append_cons, IH. reflexivity.
  - reflexivity.
Defined.

(** ** The command line *)

Lemma shlex_quote_not_empty (s : string) : shlex_quote s <> "".
Proof.
  unfold shlex_quote. destruct (String.eqb_spec s "") as [->|Hne]; [discriminate|].
  destruct (all_safe s); [exact Hne|]. discriminate.
Qed.

Lemma join_space_empty (items : list string) :
  Forall (fun x => x <> "") items -> join_space items = "" -> items = [].
Proof.
  intros Hall Hjoin. destruct items as [|x items]; [reflexivity|].
  inversion Hall as [|? ? Hx _]; subst. exfalso.
  destruct items as [|y items].
  - apply Hx. exact Hjoin.
  - cbn [join_space] in Hjoin. destruct x; [congruence|].
    rewrite append_cons in Hjoin. discriminate.
Qed.

Lemma command_string_empty (words : list string) :
  join_space (shlex_quote <$> words) = "" <-> words = [].
Proof.
  split; [|intros ->; reflexivity]. intros Hjoin.
  apply join_space_empty in Hjoin.
  - destruct words; [reflexivity | discriminate].
  - apply List.Forall_forall. intros x Hx. apply list_elem_of_In in Hx.
    apply list_elem_of_fmap in Hx as (w & -> & _). apply shlex_quote_not_empty.
Qed.

Section Main.
Context `{Ext : Externals}.

Lemma main_with_command (args : Namespace) (p : proc) :
  command args <> [] ->
  main args p =
  (default_deps ← read_deps (filename args) p;
   '(memoize_status, _, p') ←
     memoize_with_deps (config_of_args args) (filename args) default_deps
                       (join_space (shlex_quote <$> command args)) p;
   Ok (memoize_status, p')).
Proof.
  intros Hcmd. unfold main.
  destruct (String.eqb_spec (join_space (shlex_quote <$> command args)) "") as [E|_];
    [|reflexivity].
  apply command_string_empty in E. contradiction.
Qed.

(** X9. The usage error is taken exactly when no command word was
    given: the command string is empty only then, since every word, the
    empty word too, is quoted to a text that is not empty.  In that case
    the script prints the error line and exits with 1 without reading
    the store; in every other case it reads the store and memoizes the
    command string. *)
Theorem usage_error_only_without_command (args : Namespace) (p : proc) :
  (join_space (shlex_quote <$> command args) = "" <-> command args = [])
  /\ (command args = [] ->
      main args p = Ok (1%Z, print "Error: A command to memoize is required" p))
  /\ (command args <> [] ->
      main args p =
      (default_deps ← read_deps (filename args) p;
       '(memoize_status, _, p') ←
         memoize_with_deps (config_of_args args) (filename args) default_deps
                           (join_space (shlex_quote <$> command args)) p;
       Ok (memoize_status, p'))).
Proof.
  split; [apply command_string_empty|]. split.
  - intros Hcmd. unfold main. rewrite Hcmd. reflexivity.
  - apply main_with_command.
Qed.

(** X10. A first run.  The store file cannot be opened for reading
    when the script starts (typically it is not there yet), the trace of
    the run is read back, the text of every exit event is an integer,
    and after the run the store path can be opened; [pickle.load]
    returns what [pickle.dump] was given.  Then the value the script
    hands to [sys.exit] is the integer of the last exit event of the
    trace, 0 when there is none; the command string was spawned once;
    and the store file then loads to the mapping with one entry, for the
    command string, when that integer is 0, and to the empty mapping
    otherwise. *)
Theorem main_first_run (args : Namespace) (p : proc) (st1 : os_state)
    (lines : list string) (codes : list Z) :
  pickle_roundtrip ->
  command args <> [] ->
  cannot_open (os p) (filename args) ->
  strace (os p) (join_space (shlex_quote <$> command args)) = (st1, Some lines) ->
  mapM py_int (exit_texts lines) = Some codes ->
  store_openable st1 (filename args) = true ->
  let cmd := join_space (shlex_quote <$> command args) in
  let files := record_of st1 <$> dependency_paths (config_of_args args) st1 lines in
  exists p2,
    main args p = Ok (last_code 0%Z codes, p2)
    /\ spawned p2 = (spawned p ++ [cmd])%list
    /\ (last_code 0%Z codes = 0%Z -> read_deps (filename args) p2 = Ok {[ cmd := files ]})
    /\ (last_code 0%Z codes <> 0%Z -> read_deps (filename args) p2 = Ok ∅).
Proof.
  intros Hround Hcmd Hnone Hrun Hcodes Hopen cmd files.
  rewrite (main_with_command args p Hcmd).
  rewrite read_deps_unfold, (proj2 (os_read_none _ _) Hnone). cbn [mbind result_bind].
  fold cmd.
  assert (Hmiss : cache_hit (config_of_args args) ∅ cmd p = false).
  { unfold cache_hit. rewrite lookup_empty. reflexivity. }
  rewrite (memoize_miss_result (config_of_args args) (filename args) ∅ cmd p st1 lines codes
             Hmiss Hrun Hcodes Hopen).
  cbv zeta. cbn [mbind result_bind]. fold files. eexists. split; [reflexivity|].
  cbn [spawned]. split; [reflexivity|].
  split; intros Hstatus; rewrite read_deps_unfold; cbn [os];
    rewrite (os_read_after_write _ _ _ Hopen), Hround.
  - rewrite Hstatus. cbn [Z.eqb]. rewrite insert_empty. reflexivity.
  - apply Z.eqb_neq in Hstatus. rewrite Hstatus, delete_empty. reflexivity.
Qed.

(** X11. A run on a store that holds, for the command string, a list of
    records that is not empty and all of which match: the process prints
    the up-to-date line and exits with 0; it spawns nothing and leaves
    the file system, the store file included, as it was. *)
Theorem main_on_a_hit (args : Namespace) (p : proc) (bytes : string) (deps : deps_map)
    (files : list file_record) :
  command args <> [] ->
  os_read (os p) (filename args) = Some bytes ->
  pickle_loads bytes = Some deps ->
  deps !! join_space (shlex_quote <$> command args) = Some files ->
  files <> [] ->
  Forall (fingerprint_matches (config_of_args args) (os p)) files ->
  exists p',
    main args p = Ok (0%Z, p')
    /\ os p' = os p /\ spawned p' = spawned p
    /\ stdout p' = (stdout p ++ ["MEMOIZE: Up to date: "
                                 +:+ join_space (shlex_quote <$> command args)])%list.
Proof.
  intros Hcmd Hread Hload Hget Hne Hall.
  rewrite (main_with_command args p Hcmd), read_deps_unfold, Hread, Hload.
  cbn [mbind result_bind].
  assert (Hhit : cache_hit (config_of_args args) deps
                           (join_space (shlex_quote <$> command args)) p = true).
  { apply cache_hit_spec. exists files. auto. }
  unfold memoize_with_deps. rewrite Hhit. cbn [mbind result_bind].
  eexists. split; [reflexivity|]. cbn. auto.
Qed.

End Main.

Lemma usage_error_only_without_command_witness :
  main (H := replay []) (MkNamespace true ["."] None false ".deps3" []) corrupt_store_proc
  = Ok (1%Z, print "Error: A command to memoize is required" corrupt_store_proc).
Proof.
  destruct (usage_error_only_without_command (Ext := replay [])
              (MkNamespace true ["."] None false ".deps3" []) corrupt_store_proc)
    as (_ & Husage & _).
  apply Husage. reflexivity.
Defined.

Lemma main_first_run_witness :
  exists p2,
    main (H := replay relative_lines) cat_args demo_proc = Ok (0%Z, p2)
    /\ spawned p2 = ["cat out.txt"].
Proof.
  destruct (main_first_run (Ext := replay relative_lines) cat_args demo_proc demo_os
              relative_lines [0%Z]) as (p2 & Hmain & Hsp & _).
  - apply scripted_pickle_roundtrip.
  - discriminate.
  - exact I.
  - reflexivity.
  - reflexivity.
  - reflexivity.
  - exists p2. split; [exact Hmain | exact Hsp].
Defined.

Lemma main_on_a_hit_witness :
  exists p',
    main (H := replay []) cat_args stored_proc = Ok (0%Z, p')
    /\ os p' = os stored_proc /\ spawned p' = [].
Proof.
  destruct (main_on_a_hit (Ext := replay []) cat_args stored_proc
              (pickle_dumps (Externals := replay []) demo_deps) demo_deps
              [("out.txt", Some "hello", MTime 10)])
    as (p' & Hmain & Hos & Hsp & _).
  - discriminate.
  - unfold stored_proc. cbn [os]. apply os_read_after_write. reflexivity.
  - apply scripted_pickle_roundtrip.
  - reflexivity.
  - discriminate.
  - constructor; [reflexivity | constructor].
  - exists p'. split; [exact Hmain|]. split; [exact Hos | exact Hsp].
Defined.

(** ** What the patterns capture *)

Lemma star_cons (r : regex) (c : ascii) (s : string) :
  re_match (DotStar :: r) (String c s) =
  if is_newline c then re_match r (String c s)
  else match re_match (DotStar :: r) s with
       | Some g => Some g
       | None => re_match r (String c s)
       end.
Proof. reflexivity. Qed.

Lemma group_cons (r : regex) (c : ascii) (s : string) :
  re_match (GroupDotStar :: r) (String c s) =
  if is_newline c then match re_match r (String c s) with Some _ => Some "" | None => None end
  else match re_match (GroupDotStar :: r) s with
       | Some g => Some (String c g)
       | None => match re_match r (String c s) with Some _ => Some "" | None => None end
       end.
Proof. reflexivity. Qed.

Lemma lit_cons (text : string) (r : regex) (s : string) :
  re_match (Lit text :: r) s =
  match strip_prefix text s with
  | Some s' => re_match r s'
  | None => None
  end.
Proof. reflexivity. Qed.

Lemma strip_prefix_append (text s : string) : strip_prefix text (text +:+ s) = Some s.
Proof.
  induction text as [|a text IH]; [reflexivity|].
  rewrite append_cons. cbn [strip_prefix]. rewrite Ascii.eqb_refl. exact IH.
Qed.

Lemma star_matches_all (s : string) : re_match [DotStar] s = Some "".
Proof.
  induction s as [|c s IH]; [reflexivity|].
  rewrite star_cons, IH. destruct (is_newline c); reflexivity.
Qed.

(** No start of a match where the literal does not occur. *)
Lemma star_lit_fails (text : string) (r : regex) (s : string) :
  occurs text s = false -> re_match (DotStar :: Lit text :: r) s = None.
Proof.
  induction s as [|c s IH]; intros Hocc.
  - cbn [occurs] in Hocc. change (re_match (DotStar :: Lit text :: r) "")
      with (re_match (Lit text :: r) ""). rewrite lit_cons.
    destruct (strip_prefix text ""); [discriminate | reflexivity].
  - cbn [occurs] in Hocc. rewrite star_cons, lit_cons.
    destruct (strip_prefix text (String c s)); [discriminate|].
    rewrite (IH Hocc). destruct (is_newline c); reflexivity.
Qed.

Lemma group_lit_fails (text : string) (r : regex) (s : string) :
  occurs text s = false -> re_match (GroupDotStar :: Lit text :: r) s = None.
Proof.
  induction s as [|c s IH]; intros Hocc.
  - cbn [occurs] in Hocc.
    change (re_match (GroupDotStar :: Lit text :: r) "")
      with (match re_match (Lit text :: r) "" with Some _ => Some "" | None => None end).
    rewrite lit_cons. destruct (strip_prefix text ""); [discriminate | reflexivity].
  - cbn [occurs] in Hocc. rewrite group_cons, lit_cons.
    destruct (strip_prefix text (String c s)); [discriminate|].
    rewrite (IH Hocc). destruct (is_newline c); reflexivity.
Qed.

(** The star hands back a prefix without newline when the rest matches. *)
Lemma star_skips_prefix (r : regex) (pre s g : string) :
  no_newline pre = true ->
  re_match (DotStar :: r) s = Some g ->
  re_match (DotStar :: r) (pre +:+ s) = Some g.
Proof.
  induction pre as [|c pre IH]; intros Hpre Hs; [exact Hs|].
  cbn [no_newline] in Hpre. apply andb_true_iff in Hpre as [Hc Hpre].
  rewrite append_cons, star_cons, (IH Hpre Hs).
  destruct (is_newline c); [discriminate | reflexivity].
Qed.

Lemma group_takes_prefix (r : regex) (g s g0 : string) :
  no_newline g = true ->
  re_match (GroupDotStar :: r) s = Some g0 ->
  re_match (GroupDotStar :: r) (g +:+ s) = Some (g +:+ g0).
Proof.
  induction g as [|c g IH]; intros Hg Hs; [exact Hs|].
  cbn [no_newline] in Hg. apply andb_true_iff in Hg as [Hc Hg].
  rewrite !append_cons, group_cons, (IH Hg Hs).
  destruct (is_newline c); [discriminate | reflexivity].
Qed.

(** A match that starts here is the one returned when none starts later. *)
Lemma star_here (r : regex) (s g : string) :
  re_match r s = Some g ->
  re_match (DotStar :: r) (string_tail s) = None ->
  re_match (DotStar :: r) s = Some g.
Proof.
  intros Hhere Hlater. destruct s as [|c s]; [exact Hhere|].
  cbn [string_tail] in Hlater. rewrite star_cons, Hlater, Hhere.
  destruct (is_newline c); reflexivity.
Qed.

Lemma group_here (r : regex) (s x : string) :
  re_match r s = Some x ->
  re_match (GroupDotStar :: r) (string_tail s) = None ->
  re_match (GroupDotStar :: r) s = Some "".
Proof.
  intros Hhere Hlater. destruct s as [|c s].
  - change (re_match (GroupDotStar :: r) "")
      with (match re_match r "" with Some _ => Some "" | None => None end).
    rewrite Hhere. reflexivity.
  - cbn [string_tail] in Hlater. rewrite group_cons, Hlater, Hhere.
    destruct (is_newline c); reflexivity.
Qed.

(** X12. The exit pattern and the open, stat64, stat and openat patterns
    have one shape: anything, a text, the group, a text, anything.  On a
    line that holds the first text, a group, the second text and a rest,
    after a prefix, such a pattern captures exactly that group, provided
    prefix and group hold no newline, the first text does not occur
    again further on, and the second text does not occur again after the
    group: the stars are greedy, so a later occurrence would be taken. *)
Theorem simple_pattern_captures_the_argument (before after pre g post : string) :
  no_newline pre = true ->
  no_newline g = true ->
  occurs before (string_tail (before +:+ g +:+ after +:+ post)) = false ->
  occurs after (string_tail (after +:+ post)) = false ->
  re_match (simple_pattern before after) (pre +:+ before +:+ g +:+ after +:+ post) = Some g
  /\ re_open = simple_pattern ("open(" +:+ dquote) (dquote +:+ ", ")
  /\ re_stat64 = simple_pattern ("stat64(" +:+ dquote) (dquote +:+ ", ")
  /\ re_stat = simple_pattern ("stat(" +:+ dquote) (dquote +:+ ", ")
  /\ re_openat = simple_pattern ("openat(AT_FDCWD, " +:+ dquote) (dquote +:+ ", ")
  /\ re_exit_group = simple_pattern "exit_group(" ")".
Proof.
  intros Hpre Hg Hbefore Hafter.
  split; [|repeat split; reflexivity].
  unfold simple_pattern. apply star_skips_prefix; [exact Hpre|].
  apply star_here; [|apply star_lit_fails, Hbefore].
  rewrite lit_cons, strip_prefix_append.
  rewrite <- (append_empty_r g) at 2.
  apply group_takes_prefix; [exact Hg|].
  apply (group_here _ _ ""); [|apply group_lit_fails, Hafter].
  rewrite lit_cons, strip_prefix_append. apply star_matches_all.
Qed.

Lemma simple_pattern_captures_the_argument_witness :
  re_match re_stat
           (nl ("4242  l" +:+ ("stat(" +:+ dquote) +:+ "src/x.c" +:+ (dquote +:+ ", ")
                +:+ "{st_mode=S_IFREG|0644, st_size=10, ...}) = 0"))
  = Some "src/x.c".
Proof.
  refine (proj1 (simple_pattern_captures_the_argument
                   ("stat(" +:+ dquote) (dquote +:+ ", ") "4242  l" "src/x.c"
                   (nl "{st_mode=S_IFREG|0644, st_size=10, ...}) = 0") _ _ _ _));
    reflexivity.
Defined.

(** X15. The rename pattern captures the destination of a rename, not
    its source: on a line that holds the call with both paths between
    double quotes, after a prefix, it captures the second path, provided
    prefix and paths hold no newline, no other rename call follows on
    the line, the separator between the paths does not occur again after
    the source, and no double quote follows the destination's own. *)
Theorem rename_pattern_captures_the_destination (pre src dst post : string) :
  no_newline pre = true ->
  no_newline src = true ->
  no_newline dst = true ->
  occurs ("rename(" +:+ dquote)
         (string_tail (("rename(" +:+ dquote) +:+ src +:+ (dquote +:+ ", " +:+ dquote)
                       +:+ dst +:+ dquote +:+ post)) = false ->
  occurs (dquote +:+ ", " +:+ dquote)
         (string_tail ((dquote +:+ ", " +:+ dquote) +:+ dst +:+ dquote +:+ post)) = false ->
  occurs dquote post = false ->
  re_match re_rename
           (pre +:+ ("rename(" +:+ dquote) +:+ src +:+ (dquote +:+ ", " +:+ dquote)
            +:+ dst +:+ dquote +:+ post)
  = Some dst.
Proof.
  intros Hpre Hsrc Hdst Hcall Hsep Hquote. unfold re_rename.
  apply star_skips_prefix; [exact Hpre|].
  apply star_here; [|apply star_lit_fails, Hcall].
  rewrite lit_cons, strip_prefix_append.
  apply star_skips_prefix; [exact Hsrc|].
  apply star_here; [|apply star_lit_fails, Hsep].
  rewrite lit_cons, strip_prefix_append.
  rewrite <- (append_empty_r dst) at 2.
  apply group_takes_prefix; [exact Hdst|].
  apply (group_here _ _ ""); [|apply group_lit_fails; exact Hquote].
  rewrite lit_cons, strip_prefix_append. reflexivity.
Qed.

Lemma rename_pattern_captures_the_destination_witness :
  re_match re_rename
           (nl ("4242  " +:+ ("rename(" +:+ dquote) +:+ "out.o.tmp"
                +:+ (dquote +:+ ", " +:+ dquote) +:+ "out.o" +:+ dquote +:+ ") = 0"))
  = Some "out.o".
Proof.
  apply (rename_pattern_captures_the_destination "4242  " "out.o.tmp" "out.o" (nl ") = 0"));
    reflexivity.
Defined.
(** ** The command on the command line *)

Lemma classify_length (arg_strings : list string) :
  forall classes, classify arg_strings = Some classes -> length classes = length arg_strings.
Proof.
  induction arg_strings as [|arg_string rest IH]; intros classes Hc; cbn [classify] in Hc.
  - inversion Hc. reflexivity.
  - destruct (String.eqb arg_string "--").
    + inversion Hc. cbn [length]. rewrite length_fmap. reflexivity.
    + destruct (parse_optional arg_string); [| |discriminate];
        destruct (classify rest) as [cs|]; try discriminate;
        inversion Hc; cbn [length]; rewrite (IH cs eq_refl); reflexivity.
Qed.

(** Words classified without a [--] among them are classified the same
    way when more words follow. *)
Lemma classify_app (arg_strings more : list string) :
  forall classes,
    classify arg_strings = Some classes ->
    Forall (fun cls => cls <> ClassDash) classes ->
    classify (arg_strings ++ more) = (fun rest => classes ++ rest)%list <$> classify more.
Proof.
  induction arg_strings as [|arg_string rest IH]; intros classes Hc Hnodash.
  - inversion Hc. cbn [app]. destruct (classify more); reflexivity.
  - cbn [classify] in Hc. rewrite <- app_comm_cons. cbn [classify].
    destruct (String.eqb arg_string "--").
    + inversion Hc; subst. inversion Hnodash; subst. congruence.
    + destruct (parse_optional arg_string); [| |discriminate];
        destruct (classify rest) as [cs|]; try discriminate;
        inversion Hc; subst; inversion Hnodash; subst;
        rewrite (IH cs eq_refl) by assumption;
        destruct (classify more); reflexivity.
Qed.

(** Arguments that the main loop uses up as options and their values
    hold no [--], and with more arguments after them, of which the first
    is no option, the loop sets the same options and gives the command
    all of these. *)
Lemma consume_app (tail : list (string * arg_class)) (n : nat) :
  match tail with
  | (_, ClassA) :: _ | (_, ClassDash) :: _ => True
  | _ => False
  end ->
  forall (items : list (string * arg_class)) (extras : list string) (ns args : Arguments),
    (length items <= n)%nat ->
    consume items extras ns = Parsed args ->
    arg_command args = [] ->
    Forall (fun item => snd item <> ClassDash) items
    /\ consume (items ++ tail) extras ns = Parsed (set_command (fst <$> tail) args).
Proof.
  intros Htail.
  assert (Hstop : forall extras ns args,
            consume [] extras ns = Parsed args ->
            consume tail extras ns = Parsed (set_command (fst <$> tail) args)).
  { intros extras ns args Hparse. cbn [consume] in Hparse.
    destruct extras; [|discriminate]. inversion Hparse; subst.
    destruct tail as [|[w [| |]] tail']; try contradiction; reflexivity. }
  induction n as [|n IH]; intros items extras ns args Hlen Hparse Hnone.
  - destruct items; [|simpl in Hlen; lia]. split; [constructor | apply Hstop, Hparse].
  - destruct items as [|[arg_string cls] rest]; [split; [constructor | apply Hstop, Hparse]|].
    simpl in Hlen. rewrite <- app_comm_cons.
    assert (Hcmd : forall its : list (string * arg_class),
              match extras with
              | [] => Parsed (set_command (fst <$> ((arg_string, cls) :: its)) ns)
              | _ => SystemExit 2
              end = Parsed args -> False).
    { intros its Hits. destruct extras; [|discriminate]. inversion Hits; subst.
      discriminate Hnone. }
    assert (Hnext : forall (its : list (string * arg_class)) tuples,
              (length its <= n)%nat ->
              match take_actions tuples ns with
              | None => SystemExit 0
              | Some ns' => consume its extras ns'
              end = Parsed args ->
              Forall (fun item => snd item <> ClassDash) its
              /\ match take_actions tuples ns with
                 | None => SystemExit 0
                 | Some ns' => consume (its ++ tail) extras ns'
                 end = Parsed (set_command (fst <$> tail) args)).
    { intros its tuples Hits Hrun. destruct (take_actions tuples ns); [|discriminate].
      apply (IH _ _ _ _ Hits Hrun Hnone). }
    assert (Hone : forall (its : list (string * arg_class)) act strings,
              (length its <= n)%nat ->
              match take_action act strings ns with
              | None => SystemExit 0
              | Some ns' => consume its extras ns'
              end = Parsed args ->
              Forall (fun item => snd item <> ClassDash) its
              /\ match take_action act strings ns with
                 | None => SystemExit 0
                 | Some ns' => consume (its ++ tail) extras ns'
                 end = Parsed (set_command (fst <$> tail) args)).
    { intros its act strings Hits Hrun. destruct (take_action act strings ns); [|discriminate].
      apply (IH _ _ _ _ Hits Hrun Hnone). }
    destruct cls as [|[act|] option_string [explicit_arg|]|]; cbn [consume] in Hparse |- *.
    + destruct (Hcmd _ Hparse).
    + destruct (consume_explicit act option_string explicit_arg) as [[tuples [last|]]|];
        [| |discriminate].
      * destruct (takes_value last).
        -- destruct rest as [|[value [| |]] rest']; try discriminate.
           rewrite <- app_comm_cons.
           destruct (Hnext rest' _ ltac:(simpl in Hlen; lia) Hparse) as [Hall Hrun].
           split; [|exact Hrun]. repeat constructor; [discriminate .. | exact Hall].
        -- destruct (Hnext rest _ ltac:(lia) Hparse) as [Hall Hrun].
           split; [|exact Hrun]. constructor; [discriminate | exact Hall].
      * destruct (Hnext rest _ ltac:(lia) Hparse) as [Hall Hrun].
        split; [|exact Hrun]. constructor; [discriminate | exact Hall].
    + destruct (takes_value act).
      * destruct rest as [|[value [| |]] rest']; try discriminate.
        rewrite <- app_comm_cons.
        destruct (Hone rest' _ _ ltac:(simpl in Hlen; lia) Hparse) as [Hall Hrun].
        split; [|exact Hrun]. repeat constructor; [discriminate .. | exact Hall].
      * destruct (Hone rest _ _ ltac:(lia) Hparse) as [Hall Hrun].
        split; [|exact Hrun]. constructor; [discriminate | exact Hall].
    + destruct (IH rest _ _ _ ltac:(lia) Hparse Hnone) as [Hall Hrun].
      split; [|exact Hrun]. constructor; [discriminate | exact Hall].
    + destruct (IH rest _ _ _ ltac:(lia) Hparse Hnone) as [Hall Hrun].
      split; [|exact Hrun]. constructor; [discriminate | exact Hall].
    + destruct (Hcmd _ Hparse).
Qed.

(** X13. The command takes the rest of the line.  After options that
    parse on their own, in any spelling, the first word that is no
    option begins the command, and every word from there on belongs to
    the command as it stands, words that look like options of the
    script too: the settings are those the options alone give.  A word
    that is no option is [--] or one that [argparse] reads as an
    argument.  Since [argparse] classifies every word before it uses
    any, the words of the command up to a [--] must not hold an
    ambiguous abbreviation such as [--=x], on which the parser ends the
    program. *)
Theorem command_takes_the_rest (opts : list string) (args : Arguments) (word : string)
    (rest : list string) :
  parse_args opts = Parsed args ->
  arg_command args = [] ->
  word = "--" \/ parse_optional word = Positional ->
  classify (word :: rest) <> None ->
  parse_args (opts ++ word :: rest) = Parsed (set_command (word :: rest) args).
Proof.
  rewrite !parse_args_unfold. intros Hparse Hnone Hword Hrest.
  destruct (classify opts) as [classes|] eqn:Hopts; [|discriminate].
  destruct (classify (word :: rest)) as [more|] eqn:Hmore; [|contradiction].
  pose proof (classify_length _ _ Hopts) as Hlen.
  pose proof (classify_length _ _ Hmore) as Hlen'.
  assert (Htail : match zip (word :: rest) more with
                  | (_, ClassA) :: _ | (_, ClassDash) :: _ => True
                  | _ => False
                  end).
  { cbn [classify] in Hmore. destruct Hword as [-> | Hword].
    - cbn [String.eqb Ascii.eqb Bool.eqb] in Hmore. inversion Hmore. exact I.
    - rewrite Hword in Hmore. destruct (String.eqb word "--").
      + inversion Hmore. exact I.
      + destruct (classify rest); [|discriminate]. inversion Hmore. exact I. }
  destruct (consume_app _ (length (zip opts classes)) Htail _ _ _ _ (le_n _) Hparse Hnone)
    as [Hnodash Hrun].
  assert (Hclasses : Forall (fun cls => cls <> ClassDash) classes).
  { rewrite <- (snd_zip opts classes) by lia.
    apply List.Forall_forall. intros cls Hin. apply list_elem_of_In in Hin.
    apply list_elem_of_fmap in Hin as (item & -> & Hitem).
    rewrite List.Forall_forall in Hnodash. apply Hnodash, list_elem_of_In, Hitem. }
  rewrite (classify_app opts (word :: rest) classes Hopts Hclasses), Hmore.
  cbn [fmap option_fmap option_map].
  rewrite zip_with_app by (symmetry; exact Hlen). rewrite Hrun.
  rewrite fst_zip by lia. reflexivity.
Qed.

Lemma command_takes_the_rest_witness :
  parse_args (["-tv"; "--ign=build"; "-f"; "store"] ++ "make" :: ["-d"; "x"; "--verbose"])
  = Parsed (MkArguments true [Str "."] (Some [Str "build"]) true (Str "store")
                        ["make"; "-d"; "x"; "--verbose"]).
Proof.
  apply (command_takes_the_rest ["-tv"; "--ign=build"; "-f"; "store"]
           (MkArguments true [Str "."] (Some [Str "build"]) true (Str "store") [])
           "make" ["-d"; "x"; "--verbose"]).
  - reflexivity.
  - reflexivity.
  - right. reflexivity.
  - vm_compute. discriminate.
Defined.

(** ** The command string as a key *)

Lemma append_assoc (a b c : string) : (a +:+ b) +:+ c = a +:+ (b +:+ c).
Proof. induction a as [|x a IH]; [reflexivity | rewrite !append_cons, IH; reflexivity]. Qed.

Lemma read_quoted_end (rest : string) :
  word_end rest -> read_quoted ("'" +:+ rest) = Some ("", rest).
Proof.
  intros Hend. rewrite append_cons, append_nil. cbn [read_quoted].
  change (Ascii.eqb "'" "'") with true. cbv iota.
  destruct rest as [|c1 [|c2 [|c3 [|c4 rest]]]]; try reflexivity.
  cbn [word_end] in Hend. subst c1. reflexivity.
Qed.

Lemma read_quoted_escaped (w rest : string) :
  word_end rest ->
  read_quoted (escape_squotes w +:+ "'" +:+ rest) = Some (w, rest).
Proof.
  intros Hend. change ("'" +:+ rest) with (String "'" rest).
  induction w as [|c w IH].
  - cbn [escape_squotes]. rewrite append_nil. apply (read_quoted_end rest Hend).
  - cbn [escape_squotes]. destruct (Ascii.eqb_spec c "'") as [->|Hc].
    + unfold dquote. rewrite !append_assoc.
      repeat (rewrite append_cons || rewrite append_nil).
      cbn [read_quoted]. change (Ascii.eqb "'" "'") with true.
      change (Ascii.eqb "034" "034") with true. cbn [andb]. cbv iota.
      rewrite IH. reflexivity.
    + rewrite append_cons. cbn [read_quoted].
      destruct (Ascii.eqb_spec c "'") as [E|_]; [contradiction|].
      rewrite IH. reflexivity.
Qed.

Lemma safe_char_plain (c : ascii) :
  is_safe_char c = true -> Ascii.eqb c " " = false /\ Ascii.eqb c "'" = false.
Proof.
  intros Hsafe. split.
  - destruct (Ascii.eqb_spec c " ") as [->|_]; [discriminate Hsafe | reflexivity].
  - destruct (Ascii.eqb_spec c "'") as [->|_]; [discriminate Hsafe | reflexivity].
Qed.

Lemma read_plain_safe (w rest : string) :
  all_safe w = true -> word_end rest -> read_plain (w +:+ rest) = (w, rest).
Proof.
  intros Hsafe Hend. induction w as [|c w IH].
  - rewrite append_nil. destruct rest as [|c rest]; [reflexivity|].
    cbn [word_end] in Hend. subst c. reflexivity.
  - cbn [all_safe] in Hsafe. apply andb_true_iff in Hsafe as [Hc Hw].
    rewrite append_cons. cbn [read_plain].
    rewrite (proj1 (safe_char_plain c Hc)), (IH Hw). reflexivity.
Qed.

(** Reading a quoted word back gives the word. *)
Lemma next_word_quote (w rest : string) :
  word_end rest -> next_word (shlex_quote w +:+ rest) = Some (w, rest).
Proof.
  intros Hend. unfold shlex_quote.
  destruct (String.eqb_spec w "") as [->|Hne].
  - change ("''" +:+ rest) with (String "'" ("'" +:+ rest)). cbn [next_word].
    change (Ascii.eqb "'" "'") with true. cbv iota. apply read_quoted_end, Hend.
  - destruct (all_safe w) eqn:Hsafe.
    + destruct w as [|c w]; [congruence|].
      rewrite append_cons. cbn [next_word].
      pose proof Hsafe as Hboth. cbn [all_safe] in Hboth.
      apply andb_true_iff in Hboth as [Hc _].
      rewrite (proj2 (safe_char_plain c Hc)).
      rewrite <- append_cons, (read_plain_safe _ _ Hsafe Hend). reflexivity.
    + rewrite append_assoc, append_cons, append_nil. cbn [next_word].
      change (Ascii.eqb "'" "'") with true. cbv iota.
      rewrite append_assoc. apply read_quoted_escaped, Hend.
Qed.

Lemma join_space_cons (x : string) (items : list string) :
  join_space (x :: items)
  = x +:+ match items with [] => "" | _ :: _ => String " " (join_space items) end.
Proof. destruct items; [symmetry; apply append_empty_r | reflexivity]. Qed.

(** X16. The command string is a faithful key: two argument vectors
    give the same command string exactly when they are the same vector,
    word for word.  Spaces and quotes inside a word cannot be taken for
    the separators between words, and an empty word is not lost. *)
Theorem same_command_string_same_words (words words' : list string) :
  join_space (shlex_quote <$> words) = join_space (shlex_quote <$> words') <->
  words = words'.
Proof.
  split; [|intros ->; reflexivity].
  revert words'. induction words as [|w words IH]; intros words' Hsame.
  - symmetry. apply command_string_empty. symmetry. exact Hsame.
  - destruct words' as [|w' words'].
    { apply command_string_empty in Hsame. discriminate. }
    rewrite !fmap_cons, !join_space_cons in Hsame.
    assert (Hnext : forall (v : string) (vs : list string),
              next_word (shlex_quote v
                         +:+ match shlex_quote <$> vs with
                             | [] => ""
                             | _ :: _ => String " " (join_space (shlex_quote <$> vs))
                             end)
              = Some (v, match shlex_quote <$> vs with
                         | [] => ""
                         | _ :: _ => String " " (join_space (shlex_quote <$> vs))
                         end)).
    { intros v vs. apply next_word_quote. destruct (shlex_quote <$> vs); [exact I | reflexivity]. }
    pose proof (Hnext w words) as H1. rewrite Hsame, (Hnext w' words') in H1.
    inversion H1 as [[Hw Hrest]]. f_equal. apply IH.
    destruct words as [|v vs], words' as [|v' vs']; try reflexivity; try discriminate Hrest.
    cbn [fmap list_fmap] in Hrest. injection Hrest as Hjoin. symmetry. exact Hjoin.
Qed.

Lemma same_command_string_same_words_witness :
  ["echo"; "a b"; "it's"; ""] = ["echo"; "a b"; "it's"; ""].
Proof.
  apply (same_command_string_same_words ["echo"; "a b"; "it's"; ""]
           ["echo"; "a b"; "it's"; ""]).
  reflexivity.
Defined.

(** ** The default include root *)

Lemma split_sep_append_sep (a b : string) :
  split_sep (a +:+ String "/" b) = (split_sep a ++ split_sep b)%list.
Proof.
  induction a as [|c a IH]; [reflexivity|].
  rewrite append_cons. cbn [split_sep]. rewrite IH.
  destruct (Ascii.eqb c "/"); [reflexivity|].
  destruct (split_sep_cons a) as (h & t & ->). reflexivity.
Qed.

Lemma endswith_sep_split (a : string) :
  endswith_sep a = true -> exists a0, a = a0 +:+ "/".
Proof.
  induction a as [|c a IH]; [discriminate|]. cbn [endswith_sep].
  destruct a as [|c' a].
  - intros Hc. apply Ascii.eqb_eq in Hc. subst c. exists "". reflexivity.
  - intros Hend. destruct (IH Hend) as [a0 Ha0]. exists (String c a0).
    rewrite append_cons, <- Ha0. reflexivity.
Qed.

Ltac split_on_slashes :=
  repeat match goal with
         | |- context [Ascii.eqb "/" ?c] => is_var c; destruct (Ascii.eqb_spec "/" c); subst
         | H : context [Ascii.eqb ?c "/"] |- _ =>
             is_var c; destruct (Ascii.eqb_spec c "/"); subst
         end.

(** A dot at the end adds no leading slash. *)
Lemma initial_slashes_dot (a : string) :
  initial_slashes (a +:+ ".") = initial_slashes a.
Proof.
  unfold initial_slashes.
  destruct a as [|c1 [|c2 [|c3 a]]]; rewrite ?append_cons, ?append_nil;
    cbn [startswith]; split_on_slashes; reflexivity.
Qed.

(** Nor does a slash and a dot after a path that does not end in a slash. *)
Lemma initial_slashes_sep_dot (a : string) :
  a <> "" -> endswith_sep a = false -> initial_slashes (a +:+ "/.") = initial_slashes a.
Proof.
  intros Hne Hend. unfold initial_slashes.
  destruct a as [|c1 [|c2 [|c3 a]]]; [congruence | | |];
    rewrite ?append_cons, ?append_nil; cbn [startswith endswith_sep] in *;
    split_on_slashes; try discriminate; try congruence; reflexivity.
Qed.

Lemma fold_norm_step_skip (k : nat) (comps : list string) (last : string) :
  last = "" \/ last = "." ->
  fold_left (norm_step k) (comps ++ [last]) [] = fold_left (norm_step k) comps [].
Proof.
  intros Hlast. rewrite fold_left_app. cbn [fold_left].
  destruct Hlast as [-> | ->]; reflexivity.
Qed.

Lemma normpath_same_parts (a b : string) :
  a <> "" -> b <> "" ->
  initial_slashes a = initial_slashes b ->
  fold_left (norm_step (initial_slashes b)) (split_sep a) []
  = fold_left (norm_step (initial_slashes b)) (split_sep b) [] ->
  normpath a = normpath b.
Proof.
  intros Ha Hb Hk Hfold. unfold normpath, norm_comps.
  destruct (String.eqb_spec a ""); [congruence|].
  destruct (String.eqb_spec b ""); [congruence|].
  rewrite Hk, Hfold. reflexivity.
Qed.

(** The root ['.'] stands for the working directory. *)
Lemma abspath_dot (cwd : string) : isabs cwd = true -> abspath cwd "." = normpath cwd.
Proof.
  intros Habs. unfold abspath. change (isabs ".") with false. cbv iota.
  unfold path_join. change (startswith "/" ".") with false. cbv iota.
  assert (Hne : cwd <> "") by (intros ->; discriminate).
  destruct (String.eqb_spec cwd "") as [E|_]; [congruence|]. cbn [orb].
  destruct (endswith_sep cwd) eqn:Hend.
  - destruct (endswith_sep_split cwd Hend) as [a0 Ha0].
    apply normpath_same_parts.
    + destruct cwd; [congruence | discriminate].
    + exact Hne.
    + apply initial_slashes_dot.
    + rewrite Ha0, append_assoc.
      change ("/" +:+ ".") with (String "/" "."). change (a0 +:+ "/") with (a0 +:+ String "/" "").
      rewrite !split_sep_append_sep.
      change (split_sep ".") with ["."]. change (split_sep "") with [""].
      rewrite !fold_norm_step_skip by auto. reflexivity.
  - apply normpath_same_parts.
    + destruct cwd; [congruence | discriminate].
    + exact Hne.
    + apply initial_slashes_sep_dot; assumption.
    + change (cwd +:+ "/.") with (cwd +:+ String "/" ".").
      rewrite split_sep_append_sep. change (split_sep ".") with ["."].
      apply fold_norm_step_skip. auto.
Qed.

(** X17. With the roots the script starts from, the include root ['.']
    alone and no exclude root, a path is relevant exactly when the
    normalized working directory is a string prefix of its absolute
    normalized form: files elsewhere are never recorded, and the test is
    on characters, so a sibling directory whose name extends that of the
    working directory passes it too. *)
Theorem default_roots_keep_what_starts_with_cwd (cfg : config) (st : os_state)
    (fname : string) :
  opt_dirs cfg = ["."] ->
  ignore_list cfg = [] ->
  isabs (cwd st) = true ->
  is_relevant cfg st fname = startswith (normpath (cwd st)) (abspath (cwd st) fname)
  /\ (is_relevant cfg st fname = true <->
      is_prefix_of (normpath (cwd st)) (abspath (cwd st) fname)).
Proof.
  intros Hdirs Hignore Habs.
  assert (Hrel : is_relevant cfg st fname
                 = startswith (normpath (cwd st)) (abspath (cwd st) fname)).
  { rewrite is_relevant_unfold, Hdirs, Hignore. cbn [any_prefix negb andb].
    rewrite (abspath_dot _ Habs).
    destruct (startswith (normpath (cwd st)) (abspath (cwd st) fname)); reflexivity. }
  split; [exact Hrel|]. rewrite Hrel. apply startswith_spec.
Qed.

Lemma default_roots_keep_what_starts_with_cwd_witness :
  is_relevant demo_cfg demo_os "/usr/include/stdio.h" = false
  /\ is_relevant demo_cfg demo_os "../w2/x.c" = true.
Proof.
  split.
  - rewrite (proj1 (default_roots_keep_what_starts_with_cwd demo_cfg demo_os
                      "/usr/include/stdio.h" eq_refl eq_refl eq_refl)).
    reflexivity.
  - rewrite (proj1 (default_roots_keep_what_starts_with_cwd demo_cfg demo_os
                      "../w2/x.c" eq_refl eq_refl eq_refl)).
    reflexivity.
Defined.
